(** * The low-level IR builder and the per-instruction verifier of glow

    A shallow embedding of [src/glow/IR/IRBuilder.cpp] (the high-level
    operators, the low-level instruction constructors and the two overloads
    of [createStaticVariable]) and of the [verify()] methods of the
    instruction classes, followed by the properties of the builder and of
    the verifier.

    Conventions of the embedding.
    - [size_t] is a 64-bit unsigned integer: a [Z] in [0, 2^64), every
      arithmetic operation of the source followed by [wrap].
    - A [Value *] is a handle into the buffer declarations of the module and
      a [TypeRef] is a handle into its table of interned types: two handles
      are equal exactly when the two pointers are.
    - An [assert] that fails, an out-of-range index and a division by zero
      end the construction: the builder is a state monad over the module
      with failure, and [verify] returns [Some tt] when every assertion of
      the source holds and [None] otherwise. *)

From Stdlib Require Import ZArith QArith Lia Ascii.
From stdpp Require Import base option list strings pretty.

Open Scope Z_scope.

(** ** Machine integers *)

Definition size_max : Z := 2 ^ 64.

(** The value of a [size_t] expression whose mathematical value is [z]. *)
Definition wrap (z : Z) : Z := z mod size_max.

(** [z] is the value of a [size_t]. *)
Definition is_size (z : Z) : Prop := 0 <= z < size_max.

(** ** Types, buffer declarations, instructions, modules *)

(** The element kinds that the builder names; the enumeration itself is
    declared in glow/Base/Type.h, not among the sources, and the spec has
    "at least a floating-point kind and an index kind". *)
Inductive ElemKind := FloatTy | IndexTy.

Global Instance ElemKind_eq_dec : EqDecision ElemKind.
Proof. solve_decision. Defined.

(** A [float]. The source only stores these values, so they are kept as the
    expression they come from: the conversion of a [size_t], or a literal. *)
Inductive float :=
  | float_of_size (n : Z)
  | float_lit (q : Q).

(** [Type]: an element kind and a shape. *)
Record Type_ := mkType { elementType : ElemKind; sizes : list Z }.

Global Instance Type_eq_dec : EqDecision Type_.
Proof. solve_decision. Defined.

Abbreviation TypeRef := nat (only parsing).
Abbreviation Value := nat (only parsing).

(** The initialization policies and the sharing classes, in the order of the
    tables of [getInitKindStr] and [getShareKindStr]. *)
Inductive InitKind := kExtern | kBroadcast | kXavier.
Inductive ShareKind := kWeight | kActivation.

(** A buffer declaration: the handle of its type, its name, and the
    [initKind_], [shareKind_] and [val_] of the class. *)
Record StaticVariable := mkStaticVariable {
  svType : TypeRef;
  svName : string;
  initKind_ : InitKind;
  shareKind_ : ShareKind;
  val_ : float
}.

(** [PoolInst::OpKind] and [ArithmeticInst::OpKind], in the order of the
    tables of [getKindStr]. *)
Module PoolInst.
Inductive OpKind := kMax | kAvg.
End PoolInst.

Module ArithmeticInst.
Inductive OpKind := kAdd | kMul.
End ArithmeticInst.

(** The instruction classes with the attributes each one records. *)
Inductive InstKind :=
  | CopyInst
  | ConvolutionInst (kernel_ stride_ pad_ depth_ : Z)
  | PoolInst (kind_ : PoolInst.OpKind) (kernel_ stride_ pad_ : Z)
  | FullyConnectedInst (depth_ : Z)
  | ReluInst
  | SigmoidInst
  | TanhInst
  | SoftMaxInst
  | RegressionInst
  | ReshapeInst (dims_ : list Z)
  | TransposeInst (shuffle_ : list nat)
  | ConcatInst (dim_ : nat)
  | BatchNormalizationInst (channelIdx_ : nat) (epsilon_ momentum_ : float)
  | ArithmeticInst (kind_ : ArithmeticInst.OpKind).

(** An instruction: its class and its operands, the output first. The
    verifier reads only the value of an operand ([getOperand(i).first]), so
    the access-mode tag of an operand is left out. *)
Record Instruction := mkInstruction {
  instKind : InstKind;
  operands : list Value
}.

(** [Module]: the registry of the interned types, the buffer declarations
    and the instructions in program order. Handles are places in the first
    two lists; nothing is ever removed from them during construction. *)
Record Module_ := mkModule {
  types_ : list Type_;
  vars_ : list StaticVariable;
  instrs_ : list Instruction
}.

(** ** Reading a value through the module

    The accessors of [Value] and of [Type] are declared in glow/IR/IR.h and
    glow/Base/Type.h, which are not among the sources. *)

(** Modelled from the spec: [Value::getType]. A value "has a Type"; here
    the handle of the type of the declaration. *)
Definition getType (M : Module_) (v : Value) : option TypeRef :=
  svType <$> vars_ M !! v.

(** The type a value points to: [v->getType()] dereferenced. *)
Definition typeOf (M : Module_) (v : Value) : option Type_ :=
  t ← getType M v; types_ M !! t.

(** Modelled from the spec: [Value::dims]. A value "has a shape". *)
Definition dims (M : Module_) (v : Value) : option (list Z) :=
  sizes <$> typeOf M v.

(** Modelled from the spec: [Value::getElementType]. A value "has an element
    kind". *)
Definition getElementType (M : Module_) (v : Value) : option ElemKind :=
  elementType <$> typeOf M v.

(** Modelled from the spec: the "display name" of a buffer declaration. *)
Definition getName (M : Module_) (v : Value) : option string :=
  svName <$> vars_ M !! v.

(** ** The builder monad: the module as state, [None] for an abort *)

Definition Builder (A : Type) : Type := Module_ → option (A * Module_).

Global Instance Builder_ret : MRet Builder := λ A a M, Some (a, M).

Global Instance Builder_bind : MBind Builder := λ A B k m M,
  match m M with
  | Some (a, M') => k a M'
  | None => None
  end.

(** Reads through the module; [None] aborts. *)
Definition read {A} (f : Module_ → option A) : Builder A := λ M,
  match f M with
  | Some a => Some (a, M)
  | None => None
  end.

Definition assert (b : bool) : Builder unit := λ M,
  if b then Some (tt, M) else None.

(** Modelled from the spec: [Module::pushVar] (glow/IR/IR.h) is not among the
    sources. The module owns "the set of buffer declarations"; the new
    declaration is added and its handle returned. *)
Definition pushVar (A : StaticVariable) : Builder Value := λ M,
  Some (length (vars_ M),
        mkModule (types_ M) (vars_ M ++ [A]) (instrs_ M)).

(** Modelled from the spec: [Module::pushInstr] (glow/IR/IR.h) is not among
    the sources. The module owns "an ordered sequence of Instructions
    (program order = construction order)". *)
Definition pushInstr (I : Instruction) : Builder Instruction := λ M,
  Some (I, mkModule (types_ M) (vars_ M) (instrs_ M ++ [I])).

(** Modelled from the spec: [setName] (glow/IR/IR.h) is not among the
    sources. It sets the "display name" of the declaration [A] and nothing
    else. *)
Definition setName (A : Value) (name : string) : Builder unit := λ M,
  match vars_ M !! A with
  | Some sv =>
      Some (tt, mkModule (types_ M)
                  (<[A := mkStaticVariable (svType sv) name (initKind_ sv)
                            (shareKind_ sv) (val_ sv)]> (vars_ M))
                  (instrs_ M))
  | None => None
  end.

(** Modelled from the spec: [Module::uniqueType], the type registry, is
    declared in glow/IR/IR.h and defined outside the sources at hand. The
    spec: "intern(elementKind, shape) -> Type. Contract: repeated calls with
    structurally equal arguments return the same Type identity"; and there
    are "no error conditions". The registry is searched for a structurally
    equal type; when there is none the type is added and its new handle
    returned. *)
Definition uniqueType (elemTy : ElemKind) (dims : list Z) : Builder TypeRef :=
  λ M,
  let T := mkType elemTy dims in
  match list_find (λ tp, tp = T) (types_ M) with
  | Some (i, _) => Some (i, M)
  | None =>
      Some (length (types_ M),
            mkModule (types_ M ++ [T]) (vars_ M) (instrs_ M))
  end.

(** Modelled from the spec: the constructor of [StaticVariable] (glow/IR/IR.h)
    is not among the sources. It records the type, the initialization
    policy, the sharing class and the value; a declaration that was never
    given a name has the empty name. *)
Definition new_StaticVariable (T : TypeRef) (initKind : InitKind)
    (shareKind : ShareKind) (val : float) : StaticVariable :=
  mkStaticVariable T EmptyString initKind shareKind val.

(** Modelled from the spec: the default arguments of [createStaticVariable]
    are in glow/IR/IRBuilder.h, not among the sources. The spec has the
    buffers that the operators declare without further arguments as
    Activation buffers (outputs and caches) and as Extern (the running
    statistics of batch normalization). *)
Definition default_name : string := EmptyString.
Definition default_initKind : InitKind := kExtern.
Definition default_shareKind : ShareKind := kActivation.
Definition default_val : float := float_lit 0.

(** [IRBuilder::createStaticVariable(ElemKind, ArrayRef<size_t>, ...)] *)
Definition createStaticVariable (elemTy : ElemKind) (dims : list Z)
    (name : string) (initKind : InitKind) (shareKind : ShareKind)
    (val : float) : Builder Value :=
  T ← uniqueType elemTy dims;
  A ← pushVar (new_StaticVariable T initKind shareKind val);
  setName A name;;
  mret A.

(** [IRBuilder::createStaticVariable(TypeRef, ...)]: [name] is not used. *)
Definition createStaticVariableT (T : TypeRef) (name : string)
    (initKind : InitKind) (shareKind : ShareKind) (val : float)
    : Builder Value :=
  A ← pushVar (new_StaticVariable T initKind shareKind val);
  mret A.

(** ** Shapes *)

Record ShapeNHWC := mkShapeNHWC { n : Z; h : Z; w : Z; c : Z }.

Global Instance ShapeNHWC_eq_dec : EqDecision ShapeNHWC.
Proof. solve_decision. Defined.

(** Modelled from the spec: [ShapeNHWC] (glow/Base/Type.h) is not among the
    sources. The spec reads a shape "(N,H,W,C)": batch, height, width and
    channels, in this order; a shape of another rank has no such reading. *)
Definition ShapeNHWC_of (shape : list Z) : option ShapeNHWC :=
  match shape with
  | [n; h; w; c] => Some (mkShapeNHWC n h w c)
  | _ => None
  end.

(** The extent of one axis, on [size_t]. *)
Definition outputDim (extent pad filterSize stride : Z) : Z :=
  wrap (wrap (wrap (extent + wrap (pad * 2)) - filterSize) / stride + 1).

(** Modelled from the spec: [ConvNode::calculateOutputDims]
    (glow/Network/Nodes.h) is not among the sources. The spec: "Output
    spatial extent per axis = floor((extent + 2*pad - kernel) / stride) + 1".
    The arguments and the two results are [size_t] at both call sites, and a
    division by zero has no result. *)
Definition calculateOutputDims (sx sy pad filterSize stride : Z)
    : option (Z * Z) :=
  if stride =? 0 then None
  else Some (outputDim sx pad filterSize stride,
             outputDim sy pad filterSize stride).

(** The product of the extents on [size_t]. *)
Definition wrap_product (l : list Z) : Z :=
  foldr (λ d acc, wrap (d * acc)) 1 l.

(** Modelled from the spec: [flattenCdr] (glow/Base/Type.h) is not among the
    sources. The spec: "collapsing all non-leading dimensions of a shape
    into one feature dimension while preserving the leading (batch)
    dimension". *)
Definition flattenCdr (dims : list Z) : option (Z * Z) :=
  match dims with
  | first :: rest => Some (first, wrap_product rest)
  | [] => None
  end.

(** The product of the extents of a shape, on the integers. *)
Definition elementCount (shape : list Z) : Z :=
  foldr Z.mul 1 shape.

(** Modelled from the spec: [Type::size] (glow/Base/Type.h) is not among the
    sources. The spec: the "total element count" of a shape, the product of
    its extents. The count is a [size_t], so the product is taken on
    [size_t] as in [flattenCdr]. *)
Definition Type_size (T : Type_) : Z :=
  wrap_product (sizes T).

(** ** Low level instructions *)

(** Modelled from the spec: the constructors of the instruction classes
    ([new ConvolutionInst(dest, src, ...)] and the like) are declared in
    glow/IR/Instrs.h, which is not among the sources. "Operand 0 is always
    the instruction's output by convention"; the source operands follow in
    the order of the constructor's arguments, which is the order in which
    the [verify] of the class reads them, and the attributes are recorded
    as they are given. *)
Definition new_Instruction (kind : InstKind) (dest : Value)
    (srcs : list Value) : Instruction :=
  mkInstruction kind (dest :: srcs).

Definition createCopyInst (dest src : Value) : Builder Instruction :=
  pushInstr (new_Instruction CopyInst dest [src]).

Definition createConvolutionInst (dest src filter bias : Value)
    (kernel stride pad depth : Z) : Builder Instruction :=
  pushInstr (new_Instruction (ConvolutionInst kernel stride pad depth) dest
               [src; filter; bias]).

Definition createPoolInst (dest src srcXY : Value) (kind : PoolInst.OpKind)
    (kernel stride pad : Z) : Builder Instruction :=
  pushInstr (new_Instruction (PoolInst kind kernel stride pad) dest
               [src; srcXY]).

Definition createFullyConnectedInst (dest src filter bias : Value)
    (depth : Z) : Builder Instruction :=
  pushInstr (new_Instruction (FullyConnectedInst depth) dest
               [src; filter; bias]).

Definition createReluInst (dest src : Value) : Builder Instruction :=
  pushInstr (new_Instruction ReluInst dest [src]).

Definition createSigmoidInst (dest src : Value) : Builder Instruction :=
  pushInstr (new_Instruction SigmoidInst dest [src]).

Definition createTanhInst (dest src : Value) : Builder Instruction :=
  pushInstr (new_Instruction TanhInst dest [src]).

Definition createSoftMaxInst (dest src E selected : Value)
    : Builder Instruction :=
  pushInstr (new_Instruction SoftMaxInst dest [src; E; selected]).

Definition createRegressionInst (dest src expected : Value)
    : Builder Instruction :=
  pushInstr (new_Instruction RegressionInst dest [src; expected]).

Definition createReshapeInst (dest src : Value) (shape : list Z)
    : Builder Instruction :=
  pushInstr (new_Instruction (ReshapeInst shape) dest [src]).

Definition createTransposeInst (dest src : Value) (shuffle : list nat)
    : Builder Instruction :=
  pushInstr (new_Instruction (TransposeInst shuffle) dest [src]).

Definition createConcatInst (dest : Value) (src : list Value) (dim : nat)
    : Builder Instruction :=
  pushInstr (new_Instruction (ConcatInst dim) dest src).

Definition createBatchNormalizationInst (dest src scale bias mean var : Value)
    (channelIdx : nat) (epsilon momentum : float) : Builder Instruction :=
  pushInstr (new_Instruction
               (BatchNormalizationInst channelIdx epsilon momentum) dest
               [src; scale; bias; mean; var]).

Definition createArithmeticInst (dest LHS RHS : Value)
    (kind : ArithmeticInst.OpKind) : Builder Instruction :=
  pushInstr (new_Instruction (ArithmeticInst kind) dest [LHS; RHS]).

(** ** High level operators *)

Definition createConvOp (input : Value) (depth kernel stride pad : Z)
    : Builder Instruction :=
  idim ← read (λ M, dims M input ≫= ShapeNHWC_of);
  assert ((kernel <=? w idim) && (kernel <=? h idim));;
  outSz ← read (λ _, calculateOutputDims (h idim) (w idim) pad kernel stride);
  let outDims := [n idim; outSz.1; outSz.2; depth] in
  let filterDim := [depth; kernel; kernel; c idim] in
  let fanIn := wrap (wrap (kernel * kernel) * c idim) in
  filter ← createStaticVariable FloatTy filterDim "filter" kXavier kWeight
             (float_of_size fanIn);
  bias ← createStaticVariable FloatTy [depth] "bias" kBroadcast kWeight
           (float_lit (1 # 10));
  dest ← createStaticVariable FloatTy outDims default_name default_initKind
           default_shareKind default_val;
  createConvolutionInst dest input filter bias kernel stride pad depth.

Definition createPoolOp (input : Value) (kind : PoolInst.OpKind)
    (kernel stride pad : Z) : Builder Instruction :=
  idim ← read (λ M, dims M input ≫= ShapeNHWC_of);
  assert ((kernel <=? w idim) && (kernel <=? h idim));;
  outSz ← read (λ _, calculateOutputDims (h idim) (w idim) pad kernel stride);
  srcXY ← match kind with
          | PoolInst.kMax =>
              createStaticVariable IndexTy
                [n idim; outSz.1; outSz.2; c idim; 2] "srcXY"
                default_initKind default_shareKind default_val
          | PoolInst.kAvg =>
              createStaticVariable IndexTy [] "srcXY"
                default_initKind default_shareKind default_val
          end;
  dest ← createStaticVariable FloatTy [n idim; outSz.1; outSz.2; c idim]
           default_name default_initKind default_shareKind default_val;
  createPoolInst dest input srcXY kind kernel stride pad.

Definition createFullyConnectedOp (input : Value) (outDepth : Z)
    : Builder Instruction :=
  T ← read (λ M, typeOf M input);
  idim ← read (λ M, dims M input ≫= flattenCdr);
  let fanIn := idim.2 in
  W ← createStaticVariable (elementType T) [outDepth; idim.2] "weights"
        kXavier kWeight (float_of_size fanIn);
  B ← createStaticVariable (elementType T) [outDepth] "bias" kBroadcast
        kWeight (float_lit (1 # 10));
  dest ← createStaticVariable (elementType T) [idim.1; outDepth]
           default_name default_initKind default_shareKind default_val;
  createFullyConnectedInst dest input W B outDepth.

Definition createRELUOp (input : Value) : Builder Instruction :=
  T ← read (λ M, getType M input);
  res ← createStaticVariableT T default_name default_initKind
          default_shareKind default_val;
  createReluInst res input.

Definition createSigmoidOp (input : Value) : Builder Instruction :=
  T ← read (λ M, getType M input);
  res ← createStaticVariableT T default_name default_initKind
          default_shareKind default_val;
  createSigmoidInst res input.

Definition createTanhOp (input : Value) : Builder Instruction :=
  T ← read (λ M, getType M input);
  res ← createStaticVariableT T default_name default_initKind
          default_shareKind default_val;
  createTanhInst res input.

Definition createSoftMaxOp (input selected : Value) : Builder Instruction :=
  T ← read (λ M, getType M input);
  res ← createStaticVariableT T default_name default_initKind
          default_shareKind default_val;
  T' ← read (λ M, getType M input);
  E ← createStaticVariableT T' "expected" default_initKind
        default_shareKind default_val;
  createSoftMaxInst res input E selected.

Definition createRegressionOp (input expected : Value)
    : Builder Instruction :=
  T ← read (λ M, getType M input);
  res ← createStaticVariableT T default_name default_initKind
          default_shareKind default_val;
  createRegressionInst res input expected.

Definition createReshapeOp (input : Value) (shape : list Z)
    : Builder Instruction :=
  elemTy ← read (λ M, getElementType M input);
  res ← createStaticVariable elemTy shape default_name default_initKind
          default_shareKind default_val;
  createReshapeInst res input shape.

(** The loop shared by [createTransposeOp] and [TransposeInst::verify]: for
    every axis [i] of [dims], in order, the extent [dims[shuffle[i]]]. Both
    index operations abort out of range. *)
Definition shuffleDims (dims : list Z) (shuffle : list nat)
    : option (list Z) :=
  mapM (λ i, j ← shuffle !! i; dims !! j) (seq 0 (length dims)).

Definition createTransposeOp (input : Value) (shuffle : list nat)
    : Builder Instruction :=
  dims ← read (λ M, dims M input);
  shape ← read (λ _, shuffleDims dims shuffle);
  elemTy ← read (λ M, getElementType M input);
  res ← createStaticVariable elemTy shape default_name default_initKind
          default_shareKind default_val;
  createTransposeInst res input shuffle.

Definition check (b : bool) : option unit :=
  if b then Some tt else None.

(** The loop [assert(in->dims() == inDim)] over a list of values, [dimsOf]
    reading the shape of a value. *)
Fixpoint checkInputShapes (dimsOf : Value → option (list Z))
    (inDim : list Z) (inputs : list Value) : option unit :=
  match inputs with
  | [] => Some tt
  | in_ :: rest =>
      d ← dimsOf in_;
      check (bool_decide (d = inDim));;
      checkInputShapes dimsOf inDim rest
  end.

(** [shape[dimension] *= count] on a copy of [inDim], a [std::vector]. On an
    axis that the shape does not have the source writes through the
    unchecked [operator[]] of the vector, which is undefined behaviour: the
    function has no result there, and no property says what the code does
    on such an axis. *)
Definition stackShape (inDim : list Z) (dimension : nat) (count : Z)
    : option (list Z) :=
  x ← inDim !! dimension;
  Some (<[dimension := wrap (x * count)]> inDim).

Definition createConcatOp (inputs : list Value) (dimension : nat)
    : Builder Instruction :=
  in0 ← read (λ _, inputs !! 0%nat);
  inDim ← read (λ M, dims M in0);
  read (λ M, checkInputShapes (dims M) inDim inputs);;
  shape ← read (λ _, stackShape inDim dimension (Z.of_nat (length inputs)));
  elemTy ← read (λ M, getElementType M in0);
  res ← createStaticVariable elemTy shape default_name default_initKind
          default_shareKind default_val;
  createConcatInst res inputs dimension.

Definition createBatchNormalizationOp (input : Value) (channelIdx : nat)
    (epsilon momentum : float) : Builder Instruction :=
  channels ← read (λ M, idims ← dims M input; idims !! channelIdx);
  beta ← createStaticVariable FloatTy [channels] "beta" kBroadcast kWeight
           (float_lit 0);
  gamma ← createStaticVariable FloatTy [channels] "gamma" kBroadcast kWeight
            (float_lit 1);
  mean ← createStaticVariable FloatTy [channels] "mean" default_initKind
           default_shareKind default_val;
  variance ← createStaticVariable FloatTy [channels] "variance"
               default_initKind default_shareKind default_val;
  T ← read (λ M, getType M input);
  dest ← createStaticVariableT T default_name default_initKind
           default_shareKind default_val;
  createBatchNormalizationInst dest input gamma beta mean variance
    channelIdx epsilon momentum.

Definition createArithmeticOp (LHS RHS : Value)
    (op : ArithmeticInst.OpKind) : Builder Instruction :=
  l ← read (λ M, dims M LHS);
  r ← read (λ M, dims M RHS);
  assert (bool_decide (l = r));;
  T ← read (λ M, getType M LHS);
  res ← createStaticVariableT T default_name default_initKind
          default_shareKind default_val;
  createArithmeticInst res LHS RHS op.

(** ** Verification *)

(** Modelled from the spec: [Instruction::getOperand] and
    [Instruction::getNumOperands] (glow/IR/IR.h) are not among the sources.
    An instruction has "an ordered list of Operands"; an operand that the
    list does not have aborts. *)
Definition getOperand (I : Instruction) (i : nat) : option Value :=
  operands I !! i.

Definition getNumOperands (I : Instruction) : Z :=
  Z.of_nat (length (operands I)).

(** [checkSameType]: the two values have the identical type. *)
Definition checkSameType (M : Module_) (A B : option Value) : option unit :=
  a ← A; b ← B;
  tA ← getType M a; tB ← getType M b;
  check (bool_decide (tA = tB)).

Definition verify (M : Module_) (I : Instruction) : option unit :=
  match instKind I with
  | CopyInst | ReluInst | SigmoidInst | TanhInst | SoftMaxInst
  | RegressionInst =>
      checkSameType M (getOperand I 0) (getOperand I 1)
  | ConvolutionInst kernel_ stride_ pad_ depth_ =>
      dest ← getOperand I 0;
      src ← getOperand I 1;
      filter ← getOperand I 2;
      bias ← getOperand I 3;
      idim ← dims M src ≫= ShapeNHWC_of;
      odim ← dims M dest ≫= ShapeNHWC_of;
      check ((kernel_ <=? w idim) && (kernel_ <=? h idim));;
      outSz ← calculateOutputDims (h idim) (w idim) pad_ kernel_ stride_;
      exp ← ShapeNHWC_of [n idim; outSz.1; outSz.2; depth_];
      check (bool_decide (exp = odim));;
      filterDims ← dims M filter;
      check (bool_decide (filterDims = [depth_; kernel_; kernel_; c idim]));;
      biasDims ← dims M bias;
      check (bool_decide (biasDims = [depth_]))
  | PoolInst kind_ kernel_ stride_ pad_ =>
      dest ← getOperand I 0;
      src ← getOperand I 1;
      srcXY ← getOperand I 2;
      idim ← dims M src ≫= ShapeNHWC_of;
      odim ← dims M dest ≫= ShapeNHWC_of;
      check ((kernel_ <=? w idim) && (kernel_ <=? h idim));;
      outSz ← calculateOutputDims (h idim) (w idim) pad_ kernel_ stride_;
      exp ← ShapeNHWC_of [n idim; outSz.1; outSz.2; c idim];
      check (bool_decide (exp = odim));;
      match kind_ with
      | PoolInst.kMax =>
          xy ← dims M srcXY;
          check (bool_decide
                   (xy = [n idim; outSz.1; outSz.2; c idim; 2]))
      | PoolInst.kAvg => Some tt
      end
  | FullyConnectedInst depth_ =>
      dest ← getOperand I 0;
      src ← getOperand I 1;
      W ← getOperand I 2;
      B ← getOperand I 3;
      idim ← dims M src ≫= flattenCdr;
      d ← dims M dest;
      check (bool_decide (d = [idim.1; depth_]));;
      dW ← dims M W;
      check (bool_decide (dW = [depth_; idim.2]));;
      dB ← dims M B;
      check (bool_decide (dB = [depth_]))
  | ReshapeInst _ =>
      dest ← getOperand I 0;
      src ← getOperand I 1;
      Td ← typeOf M dest;
      Ts ← typeOf M src;
      check (bool_decide (Type_size Td = Type_size Ts))
  | TransposeInst shuffle_ =>
      dest ← getOperand I 0;
      src ← getOperand I 1;
      dims_src ← dims M src;
      shape ← shuffleDims dims_src shuffle_;
      d ← dims M dest;
      check (bool_decide (d = shape))
  | ConcatInst dim_ =>
      check (1 <? getNumOperands I);;
      in1 ← getOperand I 1;
      inDim ← dims M in1;
      checkInputShapes (dims M) inDim (drop 2 (operands I));;
      shape ← stackShape inDim dim_ (getNumOperands I - 1);
      dest ← getOperand I 0;
      d ← dims M dest;
      check (bool_decide (d = shape))
  | BatchNormalizationInst channelIdx_ _ _ =>
      checkSameType M (getOperand I 0) (getOperand I 1);;
      dest ← getOperand I 0;
      channels ← (d ← dims M dest; d !! channelIdx_);
      scale ← getOperand I 2 ≫= dims M;
      check (bool_decide (scale = [channels]));;
      bias ← getOperand I 3 ≫= dims M;
      check (bool_decide (bias = [channels]));;
      mean ← getOperand I 4 ≫= dims M;
      check (bool_decide (mean = [channels]));;
      var ← getOperand I 5 ≫= dims M;
      check (bool_decide (var = [channels]))
  | ArithmeticInst _ =>
      checkSameType M (getOperand I 0) (getOperand I 1);;
      checkSameType M (getOperand I 0) (getOperand I 2)
  end.

(** The instruction passes its [verify()]. *)
Definition verifies (M : Module_) (I : Instruction) : Prop :=
  verify M I = Some tt.

(** ** Textual descriptions *)

(** [std::to_string] of a [size_t] or of an [unsigned]: the decimal
    numeral. *)
Definition to_string (v : Z) : string := pretty v.

(** [listToString_impl(first, args...)]: the arguments, a blank between
    two. *)
Fixpoint listToString_impl (first : Z) (args : list Z) : string :=
  match args with
  | [] => to_string first
  | next :: args => to_string first +:+ " " +:+ listToString_impl next args
  end.

Definition listToString (first : Z) (args : list Z) : string :=
  ("[" +:+ listToString_impl first args) +:+ "]".

(** The loop of [arrayRefToString], from the index [i] on, [sb] the string
    built so far. *)
Fixpoint arrayRefToString_loop (i : nat) (list : list Z) (sb : string)
    : string :=
  match list with
  | [] => sb
  | x :: list =>
      let sb := if i is O then sb else sb +:+ ", " in
      arrayRefToString_loop (S i) list (sb +:+ to_string x)
  end.

Definition arrayRefToString (list : list Z) : string :=
  arrayRefToString_loop 0 list "[" +:+ "]".

(** The name of a kind: the entry of the table [names] at the place of the
    kind, [None] for the [nullptr] that ends the table. The enumeration of
    the pooling kinds is declared in glow/IR/Instrs.h, not among the
    sources; its values are taken in the order of the table. *)
Definition kindName (names : list (option string)) (kind : nat)
    : option string :=
  mjoin (names !! kind).

Definition PoolInst_OpKind_index (kind : PoolInst.OpKind) : nat :=
  match kind with PoolInst.kMax => 0 | PoolInst.kAvg => 1 end.

Definition PoolInst_getKindStr (kind_ : PoolInst.OpKind) : option string :=
  kindName [Some "max"; Some "avg"; None] (PoolInst_OpKind_index kind_).

(** [getExtraDesc] of the instruction classes whose attributes are
    integers. *)
Definition ConvolutionInst_getExtraDesc (kernel_ stride_ pad_ depth_ : Z)
    : string :=
  listToString kernel_ [stride_; pad_; depth_].

Definition PoolInst_getExtraDesc (kind_ : PoolInst.OpKind)
    (kernel_ stride_ pad_ : Z) : option string :=
  sb ← PoolInst_getKindStr kind_;
  Some (sb +:+ " " +:+ listToString kernel_ [stride_; pad_]).

Definition FullyConnectedInst_getExtraDesc (depth_ : Z) : string :=
  listToString depth_ [].

Definition TransposeInst_getExtraDesc (shuffle_ : list nat) : string :=
  arrayRefToString (Z.of_nat <$> shuffle_).

Definition ReshapeInst_getExtraDesc (dims_ : list Z) : string :=
  arrayRefToString dims_.

(** * The vocabulary of the properties *)

(** [wp m M Q]: from [M] the computation [m] returns, with a result and a
    module that satisfy [Q]. [wlp m M Q]: every result of [m] from [M]
    satisfies [Q]. *)
Definition wp {A} (m : Builder A) (M : Module_)
    (Q : A → Module_ → Prop) : Prop :=
  ∃ a M', m M = Some (a, M') ∧ Q a M'.

Definition wlp {A} (m : Builder A) (M : Module_)
    (Q : A → Module_ → Prop) : Prop :=
  ∀ a M', m M = Some (a, M') → Q a M'.

Definition extends (M M' : Module_) : Prop :=
  types_ M `prefix_of` types_ M' ∧ vars_ M `prefix_of` vars_ M'.

(** [M'] is [M] with the declaration [A] added: of the type [T], interned at
    its first place in the registry, and with the given attributes. *)
Definition declares (M M' : Module_) (A : Value) (T : Type_) (name : string)
    (initKind : InitKind) (shareKind : ShareKind) (val : float) : Prop :=
  ∃ t, A = length (vars_ M)
     ∧ types_ M `prefix_of` types_ M'
     ∧ types_ M' !! t = Some T
     ∧ (∀ j T', types_ M' !! j = Some T' → (j < t)%nat → T' ≠ T)
     ∧ vars_ M' = vars_ M ++ [mkStaticVariable t name initKind shareKind val]
     ∧ instrs_ M' = instrs_ M.

(** The same for the [TypeRef] overload: the type handle is taken as it is
    and the declaration keeps the empty name. *)
Definition declaresT (M M' : Module_) (A : Value) (T : TypeRef)
    (initKind : InitKind) (shareKind : ShareKind) (val : float) : Prop :=
  A = length (vars_ M)
  ∧ types_ M' = types_ M
  ∧ vars_ M' = vars_ M ++ [mkStaticVariable T EmptyString initKind shareKind val]
  ∧ instrs_ M' = instrs_ M.

Inductive HighLevelOp :=
  | ConvOp (input : Value) (depth kernel stride pad : Z)
  | PoolOp (input : Value) (kind : PoolInst.OpKind) (kernel stride pad : Z)
  | FullyConnectedOp (input : Value) (outDepth : Z)
  | RELUOp (input : Value)
  | SigmoidOp (input : Value)
  | TanhOp (input : Value)
  | SoftMaxOp (input selected : Value)
  | RegressionOp (input expected : Value)
  | ReshapeOp (input : Value) (shape : list Z)
  | TransposeOp (input : Value) (shuffle : list nat)
  | ConcatOp (inputs : list Value) (dimension : nat)
  | BatchNormalizationOp (input : Value) (channelIdx : nat)
      (epsilon momentum : float)
  | ArithmeticOp (LHS RHS : Value) (op : ArithmeticInst.OpKind).

Definition createOp (op : HighLevelOp) : Builder Instruction :=
  match op with
  | ConvOp input depth kernel stride pad =>
      createConvOp input depth kernel stride pad
  | PoolOp input kind kernel stride pad =>
      createPoolOp input kind kernel stride pad
  | FullyConnectedOp input outDepth => createFullyConnectedOp input outDepth
  | RELUOp input => createRELUOp input
  | SigmoidOp input => createSigmoidOp input
  | TanhOp input => createTanhOp input
  | SoftMaxOp input selected => createSoftMaxOp input selected
  | RegressionOp input expected => createRegressionOp input expected
  | ReshapeOp input shape => createReshapeOp input shape
  | TransposeOp input shuffle => createTransposeOp input shuffle
  | ConcatOp inputs dimension => createConcatOp inputs dimension
  | BatchNormalizationOp input channelIdx epsilon momentum =>
      createBatchNormalizationOp input channelIdx epsilon momentum
  | ArithmeticOp LHS RHS op => createArithmeticOp LHS RHS op
  end.

(** What [verify] asserts of an operator's instruction and its constructor
    does not: [createReshapeOp] asserts nothing about the element counts, and
    [createArithmeticOp] compares the shapes of its operands where [verify]
    compares their types. *)
Definition checked_by_verify_only (M : Module_) (op : HighLevelOp) : Prop :=
  match op with
  | ReshapeOp input shape =>
      ∃ d, dims M input = Some d ∧ elementCount shape = elementCount d
  | ArithmeticOp LHS RHS _ => getType M LHS = getType M RHS
  | _ => True
  end.

(** A module that declares one caller-supplied buffer, the value [0]. *)
Definition moduleWithInput (elemTy : ElemKind) (shape : list Z) : Module_ :=
  mkModule [mkType elemTy shape]
    [mkStaticVariable 0 "input" kExtern kActivation (float_lit 0)] [].

(** The buffer [v] of the module: its type, looked up through its handle,
    and its attributes. *)
Definition buffer (M : Module_) (v : Value) (elemTy : ElemKind)
    (shape : list Z) (name : string) (initKind : InitKind)
    (shareKind : ShareKind) (val : float) : Prop :=
  ∃ t, vars_ M !! v = Some (mkStaticVariable t name initKind shareKind val)
     ∧ types_ M !! t = Some (mkType elemTy shape).

(** The output extent of one axis as the spec writes it, on the integers. *)
Definition convOutput (extent pad kernel stride : Z) : Z :=
  (extent + 2 * pad - kernel) / stride + 1.

(** Convolution of an input of shape (N,H,W,C) returns, with the output,
    filter and bias buffers that the spec describes. *)
Definition conv_as_specified (M : Module_) (input : Value)
    (N H W C depth kernel stride pad : Z) : Prop :=
  ∃ I M' dest filter bias,
    createConvOp input depth kernel stride pad M = Some (I, M')
    ∧ operands I = [dest; input; filter; bias]
    ∧ dims M' dest
      = Some [N; convOutput H pad kernel stride;
              convOutput W pad kernel stride; depth]
    ∧ buffer M' filter FloatTy [depth; kernel; kernel; C] "filter" kXavier
        kWeight (float_of_size (kernel * kernel * C))
    ∧ buffer M' bias FloatTy [depth] "bias" kBroadcast kWeight
        (float_lit (1 # 10)).

(** Pooling of an input of shape (N,H,W,C) returns, with the output and the
    auxiliary buffers that the spec describes. *)
Definition pool_as_specified (M : Module_) (input : Value)
    (N H W C : Z) (kind : PoolInst.OpKind) (kernel stride pad : Z) : Prop :=
  ∃ I M' dest srcXY,
    createPoolOp input kind kernel stride pad M = Some (I, M')
    ∧ operands I = [dest; input; srcXY]
    ∧ dims M' dest
      = Some [N; convOutput H pad kernel stride;
              convOutput W pad kernel stride; C]
    ∧ getElementType M' srcXY = Some IndexTy
    ∧ dims M' srcXY
      = Some match kind with
             | PoolInst.kMax =>
                 [N; convOutput H pad kernel stride;
                  convOutput W pad kernel stride; C; 2]
             | PoolInst.kAvg => []
             end.

(** The inverse of a permutation: at [j], the place of [j] in [shuffle]. *)
Definition inverseShuffle (shuffle : list nat) : list nat :=
  (λ j, default 0%nat (fst <$> list_find (λ x, x = j) shuffle))
    <$> seq 0 (length shuffle).

(** The shape [S] with the extent at the axis [k] multiplied by [N], on the
    integers. *)
Definition stackedShape (S : list Z) (k : nat) (N : Z) : list Z :=
  alter (λ x, x * N) k S.

(** Concat of inputs of the common shape [S] on the axis [k] returns, with
    the output shape that the spec describes, and [verify()] accepts that
    output shape and no other. *)
Definition concat_as_specified (M : Module_) (inputs : list Value)
    (S : list Z) (k : nat) : Prop :=
  ∃ I M' dest,
    createConcatOp inputs k M = Some (I, M')
    ∧ I = mkInstruction (ConcatInst k) (dest :: inputs)
    ∧ dims M' dest = Some (stackedShape S k (Z.of_nat (length inputs)))
    ∧ verifies M' I
    ∧ ∀ dest',
        verifies M' (mkInstruction (ConcatInst k) (dest' :: inputs)) →
        dims M' dest' = Some (stackedShape S k (Z.of_nat (length inputs))).

(** The number of buffers that a high-level operator declares. *)
Definition declaredBuffers (op : HighLevelOp) : nat :=
  match op with
  | ConvOp _ _ _ _ _ | FullyConnectedOp _ _ => 3
  | PoolOp _ _ _ _ _ | SoftMaxOp _ _ => 2
  | BatchNormalizationOp _ _ _ _ => 5
  | _ => 1
  end.

(** Every instruction of the module passes its [verify()]. *)
Definition verifies_all (M : Module_) : Prop :=
  Forall (verifies M) (instrs_ M).

(** The module of an input (1,16,16,8) after Max pooling with kernel 2 and
    stride 2: the input, the coordinate cache and the output. *)
Definition pooledModule : Module_ :=
  mkModule
    [mkType FloatTy [1; 16; 16; 8]; mkType IndexTy [1; 8; 8; 8; 2];
     mkType FloatTy [1; 8; 8; 8]]
    [mkStaticVariable 0 "input" kExtern kActivation (float_lit 0);
     mkStaticVariable 1 "srcXY" kExtern kActivation (float_lit 0);
     mkStaticVariable 2 EmptyString kExtern kActivation (float_lit 0)]
    [mkInstruction (PoolInst PoolInst.kMax 2 2 0) [2; 0; 1]%nat].

(** The input whose type an operator gives to its output as it is, through
    the [TypeRef] overload of [createStaticVariable]. *)
Definition sameTypeInput (op : HighLevelOp) : option Value :=
  match op with
  | RELUOp input | SigmoidOp input | TanhOp input | SoftMaxOp input _
  | RegressionOp input _ | BatchNormalizationOp input _ _ _
  | ArithmeticOp input _ _ => Some input
  | _ => None
  end.

(** The operators that declare buffers through the [TypeRef] overload
    only. *)
Definition internsNothing (op : HighLevelOp) : bool :=
  match op with
  | RELUOp _ | SigmoidOp _ | TanhOp _ | SoftMaxOp _ _ | RegressionOp _ _
  | ArithmeticOp _ _ _ => true
  | _ => false
  end.

(** The shuffle of two transpositions in a row, [first] and then [second]:
    at [i], the entry of [first] at the place [second[i]]. *)
Definition composeShuffle (first second : list nat) : list nat :=
  (λ j, default 0%nat (first !! j)) <$> second.

(** The decimal digits, and the strings made of them. *)
Definition digit (c : ascii) : bool :=
  let n := nat_of_ascii c in (48 <=? n)%nat && (n <=? 57)%nat.

Fixpoint digits (s : string) : bool :=
  match s with
  | EmptyString => true
  | String c s => digit c && digits s
  end.

(** The string starts with a character that is no digit. *)
Definition starts_nondigit (s : string) : Prop :=
  match s with
  | EmptyString => False
  | String c _ => digit c = false
  end.

(** What the loop of [arrayRefToString] adds for the elements after the
    first. *)
Fixpoint arrayRefToString_rest (list : list Z) : string :=
  match list with
  | [] => EmptyString
  | x :: list => ", " +:+ to_string x +:+ arrayRefToString_rest list
  end.

(** The element kind of the output of an operator, as the calls of
    [createStaticVariable] for the output give it: Float for Convolution and
    Pooling, the element kind of the first input for Concat, and the element
    kind of the (first) input for the others. *)
Definition outputElemKind (M : Module_) (op : HighLevelOp)
    : option ElemKind :=
  match op with
  | ConvOp _ _ _ _ _ | PoolOp _ _ _ _ _ => Some FloatTy
  | ConcatOp inputs _ => inputs !! 0%nat ≫= getElementType M
  | FullyConnectedOp input _ | RELUOp input | SigmoidOp input | TanhOp input
  | SoftMaxOp input _ | RegressionOp input _ | ReshapeOp input _
  | TransposeOp input _ | BatchNormalizationOp input _ _ _
  | ArithmeticOp input _ _ => getElementType M input
  end.

(** * Properties *)

(** ** Running the builder *)

Section builder_logic.
Context {A B : Type}.
Implicit Types (m : Builder A) (k : A → Builder B) (M : Module_).
Implicit Types (Q : A → Module_ → Prop) (R : B → Module_ → Prop).

Lemma wp_wlp m M Q a M' :
  wp m M Q → m M = Some (a, M') → Q a M'.
Proof. intros (a0 & M0 & Hrun & HQ) Heq. congruence. Qed.

Lemma wp_bind m k M R :
  wp m M (λ a M1, wp (k a) M1 R) → wp (m ≫= k) M R.
Proof.
  intros (a & M1 & Hm & b & M2 & Hk & HR). exists b, M2. split; [|done].
  unfold mbind, Builder_bind. by rewrite Hm.
Qed.

Lemma wlp_bind m k M R :
  wlp m M (λ a M1, wlp (k a) M1 R) → wlp (m ≫= k) M R.
Proof.
  intros Hm b M2. unfold mbind, Builder_bind.
  destruct (m M) as [[a M1]|] eqn:E; [|done]. intros Hk. by eapply Hm.
Qed.

Lemma wp_ret (a : A) M Q : Q a M → wp (mret a) M Q.
Proof. intros HQ. by exists a, M. Qed.

Lemma wlp_ret (a : A) M Q : Q a M → wlp (mret a) M Q.
Proof. intros HQ a' M'. unfold mret, Builder_ret. by intros [= <- <-]. Qed.

Lemma wp_read (f : Module_ → option A) M Q a :
  f M = Some a → Q a M → wp (read f) M Q.
Proof. intros Hf HQ. exists a, M. unfold read. by rewrite Hf. Qed.

Lemma wlp_read (f : Module_ → option A) M Q :
  (∀ a, f M = Some a → Q a M) → wlp (read f) M Q.
Proof.
  intros HQ a M'. unfold read. destruct (f M) as [a0|]; [|done].
  intros [= <- <-]. by apply HQ.
Qed.

End builder_logic.

Lemma wp_assert b M (Q : unit → Module_ → Prop) :
  b = true → Q tt M → wp (assert b) M Q.
Proof. intros -> HQ. by exists tt, M. Qed.

Lemma wlp_assert b M (Q : unit → Module_ → Prop) :
  (b = true → Q tt M) → wlp (assert b) M Q.
Proof.
  intros HQ a M'. unfold assert. destruct b; [|done].
  intros [= <- <-]. by apply HQ.
Qed.

(** ** Construction only adds to the module *)

Lemma extends_refl M : extends M M.
Proof. by split. Qed.

Lemma extends_trans M1 M2 M3 : extends M1 M2 → extends M2 M3 → extends M1 M3.
Proof. intros [? ?] [? ?]. split; by etrans. Qed.

Lemma extends_getType M M' v t :
  extends M M' → getType M v = Some t → getType M' v = Some t.
Proof.
  intros [_ Hv]. unfold getType. intros H.
  apply fmap_Some in H as (sv & Hsv & ->).
  by rewrite (prefix_lookup_Some _ _ _ _ Hsv Hv).
Qed.

Lemma extends_typeOf M M' v T :
  extends M M' → typeOf M v = Some T → typeOf M' v = Some T.
Proof.
  intros HMM'. unfold typeOf. intros H.
  apply bind_Some in H as (t & Ht & HT).
  rewrite (extends_getType _ _ _ _ HMM' Ht). simpl.
  destruct HMM' as [Hty _]. by eapply prefix_lookup_Some.
Qed.

Lemma typeOf_dims M v T : typeOf M v = Some T → dims M v = Some (sizes T).
Proof. unfold dims. by intros ->. Qed.

Lemma typeOf_getElementType M v T :
  typeOf M v = Some T → getElementType M v = Some (elementType T).
Proof. unfold getElementType. by intros ->. Qed.

Lemma dims_typeOf M v d :
  dims M v = Some d → ∃ T, typeOf M v = Some T ∧ sizes T = d.
Proof. unfold dims. intros H. apply fmap_Some in H as (T & ? & ->). eauto. Qed.

Lemma getElementType_typeOf M v e :
  getElementType M v = Some e → ∃ T, typeOf M v = Some T ∧ elementType T = e.
Proof.
  unfold getElementType. intros H. apply fmap_Some in H as (T & ? & ->). eauto.
Qed.

Lemma typeOf_getType M v T :
  typeOf M v = Some T → ∃ t, getType M v = Some t ∧ types_ M !! t = Some T.
Proof. unfold typeOf. intros H. apply bind_Some in H. done. Qed.

(** ** Declaring a buffer *)

Lemma uniqueType_run M elemTy dims :
  ∃ t M', uniqueType elemTy dims M = Some (t, M')
    ∧ types_ M `prefix_of` types_ M'
    ∧ types_ M' !! t = Some (mkType elemTy dims)
    ∧ (∀ j T', types_ M' !! j = Some T' → (j < t)%nat → T' ≠ mkType elemTy dims)
    ∧ vars_ M' = vars_ M ∧ instrs_ M' = instrs_ M.
Proof.
  unfold uniqueType.
  destruct (list_find _ (types_ M)) as [[i T]|] eqn:E.
  - apply list_find_Some in E as (Hi & -> & Hfirst).
    exists i, M. repeat split; eauto.
  - exists (length (types_ M)). eexists. split; [done|]. simpl.
    repeat split.
    + by apply prefix_app_r.
    + by rewrite lookup_app_r, Nat.sub_diag.
    + intros j T' Hj Hlt. rewrite lookup_app_l in Hj by done.
      eapply list_find_None in E. rewrite Forall_forall in E.
      apply E. by eapply list_elem_of_lookup_2.
Qed.

Lemma createStaticVariable_run M elemTy dims name initKind shareKind val :
  ∃ M', createStaticVariable elemTy dims name initKind shareKind val M
          = Some (length (vars_ M), M')
    ∧ declares M M' (length (vars_ M)) (mkType elemTy dims) name initKind
        shareKind val.
Proof.
  destruct (uniqueType_run M elemTy dims)
    as (t & M1 & Hrun & Hpre & Ht & Hfirst & Hvars & Hinstrs).
  unfold createStaticVariable, mbind, Builder_bind. rewrite Hrun.
  unfold pushVar, setName, mret, Builder_ret. simpl.
  rewrite Hvars, lookup_app_r, Nat.sub_diag by done. simpl.
  eexists. split; [done|]. exists t. simpl.
  repeat split; try done.
  replace (length (vars_ M)) with (length (vars_ M) + 0)%nat at 1 by lia.
  by rewrite insert_app_r.
Qed.

Lemma createStaticVariableT_run M T name initKind shareKind val :
  createStaticVariableT T name initKind shareKind val M
  = Some (length (vars_ M),
          mkModule (types_ M)
            (vars_ M ++ [mkStaticVariable T EmptyString initKind shareKind val])
            (instrs_ M)).
Proof. reflexivity. Qed.

Lemma wp_createStaticVariable M elemTy dims name initKind shareKind val Q :
  (∀ M', declares M M' (length (vars_ M)) (mkType elemTy dims) name initKind
           shareKind val → Q (length (vars_ M)) M') →
  wp (createStaticVariable elemTy dims name initKind shareKind val) M Q.
Proof.
  intros HQ.
  destruct (createStaticVariable_run M elemTy dims name initKind shareKind val)
    as (M' & Hrun & Hdecl).
  exists (length (vars_ M)), M'. auto.
Qed.

Lemma wlp_createStaticVariable M elemTy dims name initKind shareKind val Q :
  (∀ M', declares M M' (length (vars_ M)) (mkType elemTy dims) name initKind
           shareKind val → Q (length (vars_ M)) M') →
  wlp (createStaticVariable elemTy dims name initKind shareKind val) M Q.
Proof.
  intros HQ a M1 Hrun. eapply wp_wlp; [|exact Hrun].
  by apply wp_createStaticVariable.
Qed.

Lemma wp_createStaticVariableT M T name initKind shareKind val Q :
  (∀ M', declaresT M M' (length (vars_ M)) T initKind shareKind val →
         Q (length (vars_ M)) M') →
  wp (createStaticVariableT T name initKind shareKind val) M Q.
Proof.
  intros HQ. eexists _, _. split; [apply createStaticVariableT_run|].
  apply HQ. by repeat split.
Qed.

Lemma wlp_createStaticVariableT M T name initKind shareKind val Q :
  (∀ M', declaresT M M' (length (vars_ M)) T initKind shareKind val →
         Q (length (vars_ M)) M') →
  wlp (createStaticVariableT T name initKind shareKind val) M Q.
Proof.
  intros HQ a M1 Hrun. eapply wp_wlp; [|exact Hrun].
  by apply wp_createStaticVariableT.
Qed.

Lemma wp_pushInstr I M (Q : Instruction → Module_ → Prop) :
  Q I (mkModule (types_ M) (vars_ M) (instrs_ M ++ [I])) →
  wp (pushInstr I) M Q.
Proof. intros HQ. by eexists _, _. Qed.

Lemma wlp_pushInstr I M (Q : Instruction → Module_ → Prop) :
  Q I (mkModule (types_ M) (vars_ M) (instrs_ M ++ [I])) →
  wlp (pushInstr I) M Q.
Proof. intros HQ a M1. unfold pushInstr. by intros [= <- <-]. Qed.

Lemma declares_extends M M' A T name initKind shareKind val :
  declares M M' A T name initKind shareKind val → extends M M'.
Proof.
  intros (t & _ & Hty & _ & _ & Hvars & _). split; [done|].
  rewrite Hvars. by apply prefix_app_r.
Qed.

Lemma declares_getType M M' A T name initKind shareKind val :
  declares M M' A T name initKind shareKind val →
  ∃ t, getType M' A = Some t ∧ types_ M' !! t = Some T
     ∧ ∀ j T', types_ M' !! j = Some T' → (j < t)%nat → T' ≠ T.
Proof.
  intros (t & -> & _ & Ht & Hfirst & Hvars & _). exists t.
  split; [|done]. unfold getType.
  by rewrite Hvars, lookup_app_r, Nat.sub_diag.
Qed.

Lemma declares_typeOf M M' A T name initKind shareKind val :
  declares M M' A T name initKind shareKind val → typeOf M' A = Some T.
Proof.
  intros H. apply declares_getType in H as (t & Ht & HT & _).
  unfold typeOf. by rewrite Ht.
Qed.

Lemma declares_var M M' A T name initKind shareKind val :
  declares M M' A T name initKind shareKind val →
  ∃ t, vars_ M' !! A = Some (mkStaticVariable t name initKind shareKind val)
     ∧ types_ M' !! t = Some T.
Proof.
  intros (t & -> & _ & Ht & _ & Hvars & _). exists t. split; [|done].
  by rewrite Hvars, lookup_app_r, Nat.sub_diag.
Qed.

Lemma declaresT_extends M M' A T initKind shareKind val :
  declaresT M M' A T initKind shareKind val → extends M M'.
Proof.
  intros (_ & Hty & Hvars & _). split; [by rewrite Hty|].
  rewrite Hvars. by apply prefix_app_r.
Qed.

Lemma declaresT_getType M M' A T initKind shareKind val :
  declaresT M M' A T initKind shareKind val → getType M' A = Some T.
Proof.
  intros (-> & _ & Hvars & _). unfold getType.
  by rewrite Hvars, lookup_app_r, Nat.sub_diag.
Qed.

Lemma declaresT_var M M' A T initKind shareKind val :
  declaresT M M' A T initKind shareKind val →
  vars_ M' !! A = Some (mkStaticVariable T EmptyString initKind shareKind val).
Proof.
  intros (-> & _ & Hvars & _).
  by rewrite Hvars, lookup_app_r, Nat.sub_diag.
Qed.

(** [verify] reads the types and the declarations of a module only. *)
Lemma verify_instrs M instrs I :
  verify (mkModule (types_ M) (vars_ M) instrs) I = verify M I.
Proof. reflexivity. Qed.

Lemma ShapeNHWC_of_Some shape s :
  ShapeNHWC_of shape = Some s → shape = [n s; h s; w s; c s].
Proof.
  destruct shape as [|? [|? [|? [|? [|? ?]]]]]; simpl; try done.
  by intros [= <-].
Qed.

Lemma check_true b : b = true → check b = Some tt.
Proof. by intros ->. Qed.

Lemma check_decide (P : Prop) `{Decision P} : P → check (bool_decide P) = Some tt.
Proof. intros HP. by rewrite bool_decide_eq_true_2. Qed.

(** One step of a builder computation, in either logic. *)
Ltac builder_step :=
  lazymatch goal with
  | |- wlp (_ ≫= _) _ _ => apply wlp_bind
  | |- wlp (read _) _ _ => apply wlp_read; intros ? ?
  | |- wlp (assert _) _ _ => apply wlp_assert; intros ?
  | |- wlp (createStaticVariable _ _ _ _ _ _) _ _ =>
      apply wlp_createStaticVariable; intros ? ?
  | |- wlp (createStaticVariableT _ _ _ _ _) _ _ =>
      apply wlp_createStaticVariableT; intros ? ?
  | |- wlp (pushInstr _) _ _ => apply wlp_pushInstr
  | |- wlp (mret _) _ _ => apply wlp_ret
  | |- wp (_ ≫= _) _ _ => apply wp_bind
  | |- wp (createStaticVariable _ _ _ _ _ _) _ _ =>
      apply wp_createStaticVariable; intros ? ?
  | |- wp (createStaticVariableT _ _ _ _ _) _ _ =>
      apply wp_createStaticVariableT; intros ? ?
  | |- wp (pushInstr _) _ _ => apply wp_pushInstr
  | |- wp (mret _) _ _ => apply wp_ret
  end.

(** What the declarations made so far say about the current module. *)
Ltac declared_facts :=
  repeat match goal with
  | H : declares _ _ _ _ _ _ _ _ |- _ =>
      pose proof (declares_extends _ _ _ _ _ _ _ _ H);
      pose proof (declares_typeOf _ _ _ _ _ _ _ _ H);
      clear H
  | H : declaresT _ _ _ _ _ _ _ |- _ =>
      pose proof (declaresT_extends _ _ _ _ _ _ _ H);
      pose proof (declaresT_getType _ _ _ _ _ _ _ H);
      clear H
  | H : dims _ _ = Some _ |- _ =>
      apply dims_typeOf in H as (? & H & ?)
  | H : getElementType _ _ = Some _ |- _ =>
      apply getElementType_typeOf in H as (? & H & ?)
  end;
  repeat match goal with
  | H1 : ?x = Some _, H2 : ?x = Some _ |- _ => rewrite H1 in H2; simplify_eq
  end;
  repeat match goal with
  | H : typeOf ?M ?v = Some ?T |- _ =>
      lazymatch goal with
      | _ : getType M v = Some _ |- _ => fail
      | _ => let Ht := fresh in
             destruct (typeOf_getType _ _ _ H) as (? & Ht & _)
      end
  end;
  repeat match goal with
  | He : extends ?M1 ?M2, H : typeOf ?M1 ?v = Some ?T |- _ =>
      lazymatch goal with
      | _ : typeOf M2 v = Some T |- _ => fail
      | _ => pose proof (extends_typeOf _ _ _ _ He H)
      end
  | He : extends ?M1 ?M2, H : getType ?M1 ?v = Some ?t |- _ =>
      lazymatch goal with
      | _ : getType M2 v = Some t |- _ => fail
      | _ => pose proof (extends_getType _ _ _ _ He H)
      end
  end.

(** Rewrites the reads of [verify] with what is known of the module. *)
Ltac verify_with_facts :=
  unfold verifies, verify, checkSameType, getOperand; simpl;
  repeat (match goal with
  | H : typeOf ?M ?v = Some _ |- context [dims ?M ?v] =>
      rewrite (typeOf_dims _ _ _ H)
  | H : typeOf ?M ?v = Some _ |- context [typeOf ?M ?v] => rewrite H
  | H : getType ?M ?v = Some _ |- context [getType ?M ?v] => rewrite H
  | H : sizes ?T = _ |- context [sizes ?T] => rewrite H
  | H : ?x = Some _ |- context [?x] => rewrite H
  | H : ?x = true |- context [?x] => rewrite H
  | |- context [bool_decide (?x = ?x)] =>
      rewrite (bool_decide_eq_true_2 (x = x) eq_refl)
  end; simpl).

(** ** Construction and verification agree, operator by operator *)

Lemma createConvOp_verifies M input depth kernel stride pad :
  wlp (createConvOp input depth kernel stride pad) M (λ I M', verifies M' I).
Proof.
  unfold createConvOp, createConvolutionInst.
  repeat builder_step.
  unfold verifies. rewrite verify_instrs.
  match goal with H : _ ≫= ShapeNHWC_of = Some _ |- _ =>
    apply bind_Some in H as (? & ? & ?%ShapeNHWC_of_Some) end.
  declared_facts. subst. by verify_with_facts.
Qed.

Lemma createPoolOp_verifies M input kind kernel stride pad :
  wlp (createPoolOp input kind kernel stride pad) M (λ I M', verifies M' I).
Proof.
  unfold createPoolOp, createPoolInst.
  destruct kind; repeat builder_step;
    unfold verifies; rewrite verify_instrs;
    match goal with H : _ ≫= ShapeNHWC_of = Some _ |- _ =>
      apply bind_Some in H as (? & ? & ?%ShapeNHWC_of_Some) end;
    declared_facts; subst; by verify_with_facts.
Qed.

Lemma createFullyConnectedOp_verifies M input outDepth :
  wlp (createFullyConnectedOp input outDepth) M (λ I M', verifies M' I).
Proof.
  unfold createFullyConnectedOp, createFullyConnectedInst.
  repeat builder_step.
  unfold verifies. rewrite verify_instrs.
  match goal with H : _ ≫= flattenCdr = Some _ |- _ =>
    apply bind_Some in H as (? & ? & ?) end.
  declared_facts. subst. by verify_with_facts.
Qed.

Lemma createRELUOp_verifies M input :
  wlp (createRELUOp input) M (λ I M', verifies M' I).
Proof.
  unfold createRELUOp, createReluInst. repeat builder_step.
  unfold verifies. rewrite verify_instrs.
  declared_facts. by verify_with_facts.
Qed.

Lemma createSigmoidOp_verifies M input :
  wlp (createSigmoidOp input) M (λ I M', verifies M' I).
Proof.
  unfold createSigmoidOp, createSigmoidInst. repeat builder_step.
  unfold verifies. rewrite verify_instrs.
  declared_facts. by verify_with_facts.
Qed.

Lemma createTanhOp_verifies M input :
  wlp (createTanhOp input) M (λ I M', verifies M' I).
Proof.
  unfold createTanhOp, createTanhInst. repeat builder_step.
  unfold verifies. rewrite verify_instrs.
  declared_facts. by verify_with_facts.
Qed.

Lemma createSoftMaxOp_verifies M input selected :
  wlp (createSoftMaxOp input selected) M (λ I M', verifies M' I).
Proof.
  unfold createSoftMaxOp, createSoftMaxInst. repeat builder_step.
  unfold verifies. rewrite verify_instrs.
  declared_facts. by verify_with_facts.
Qed.

Lemma createRegressionOp_verifies M input expected :
  wlp (createRegressionOp input expected) M (λ I M', verifies M' I).
Proof.
  unfold createRegressionOp, createRegressionInst. repeat builder_step.
  unfold verifies. rewrite verify_instrs.
  declared_facts. by verify_with_facts.
Qed.

Lemma createTransposeOp_verifies M input shuffle :
  wlp (createTransposeOp input shuffle) M (λ I M', verifies M' I).
Proof.
  unfold createTransposeOp, createTransposeInst. repeat builder_step.
  unfold verifies. rewrite verify_instrs.
  declared_facts. subst. by verify_with_facts.
Qed.

Lemma check_Some b : check b = Some tt ↔ b = true.
Proof. by destruct b. Qed.

Lemma wrap_product_elementCount l : wrap_product l = wrap (elementCount l).
Proof.
  unfold wrap_product, elementCount, wrap.
  induction l as [|d l IH]; simpl; [done|].
  by rewrite IH, Z.mul_mod_idemp_r.
Qed.

Lemma wrap_product_small l :
  is_size (elementCount l) → wrap_product l = elementCount l.
Proof.
  intros Hsize. rewrite wrap_product_elementCount.
  unfold wrap, is_size in *. by apply Z.mod_small.
Qed.

Lemma createReshapeOp_verifies M input shape :
  wlp (createReshapeOp input shape) M (λ I M',
    ∀ d, dims M input = Some d →
         verifies M' I ↔ wrap_product shape = wrap_product d).
Proof.
  unfold createReshapeOp, createReshapeInst. repeat builder_step.
  intros d Hd. unfold verifies. rewrite verify_instrs.
  declared_facts. subst. verify_with_facts.
  unfold Type_size. simpl. by rewrite check_Some, bool_decide_eq_true.
Qed.

Lemma checkInputShapes_Some dimsOf inDim inputs :
  checkInputShapes dimsOf inDim inputs = Some tt
  ↔ Forall (λ v, dimsOf v = Some inDim) inputs.
Proof.
  induction inputs as [|v inputs IH]; simpl.
  - split; [constructor|done].
  - rewrite Forall_cons, <- IH. destruct (dimsOf v) as [d|]; simpl.
    + destruct (decide (d = inDim)) as [->|Hne].
      * rewrite bool_decide_eq_true_2 by done. simpl. tauto.
      * rewrite bool_decide_eq_false_2 by done. simpl.
        split; [done|]. intros [[=] _]. done.
    + split; [done|]. by intros [? _].
Qed.

Lemma createConcatOp_verifies M inputs dimension :
  wlp (createConcatOp inputs dimension) M (λ I M', verifies M' I).
Proof.
  unfold createConcatOp, createConcatInst. repeat builder_step.
  unfold verifies. rewrite verify_instrs.
  repeat match goal with u : unit |- _ => destruct u end.
  match goal with H : checkInputShapes _ _ _ = Some _ |- _ =>
    apply checkInputShapes_Some in H; rename H into Hall end.
  match goal with H : inputs !! 0%nat = Some ?v |- _ =>
    rename H into Hin0; rename v into in0 end.
  match goal with H : stackShape _ _ _ = Some _ |- _ =>
    rename H into Hshape end.
  destruct inputs as [|in0' inputs]; [done|]. simpl in Hin0.
  injection Hin0 as ->.
  apply Forall_cons in Hall as [_ Hall].
  match goal with H : dims M in0 = Some ?d |- _ => rename d into inDim end.
  match goal with H : declares M ?M1 _ _ _ _ _ _ |- _ =>
    assert (checkInputShapes (dims M1) inDim inputs = Some tt) as Hchk
  end.
  { apply checkInputShapes_Some. eapply Forall_impl; [exact Hall|].
    simpl. intros v Hv. apply dims_typeOf in Hv as (T & HT & <-).
    apply typeOf_dims. eapply extends_typeOf; [|exact HT].
    by eapply declares_extends. }
  declared_facts. subst.
  unfold verifies, verify, getNumOperands, getOperand. simpl.
  rewrite check_true by (apply Z.ltb_lt; lia). simpl.
  verify_with_facts. rewrite drop_0, Hchk. simpl.
  simpl length in Hshape.
  replace (Z.of_nat (S (S (length inputs))) - 1)
    with (Z.of_nat (S (length inputs))) by lia.
  rewrite Hshape. simpl. by apply check_decide.
Qed.

Lemma createBatchNormalizationOp_verifies M input channelIdx epsilon momentum :
  wlp (createBatchNormalizationOp input channelIdx epsilon momentum) M
      (λ I M', verifies M' I).
Proof.
  unfold createBatchNormalizationOp, createBatchNormalizationInst.
  repeat builder_step.
  unfold verifies. rewrite verify_instrs.
  match goal with H : _ ≫= _ = Some _ |- _ =>
    apply bind_Some in H as (idims & ? & Hch) end.
  declared_facts. subst.
  match goal with
  | Ht : getType ?Mf input = Some ?t, HT : typeOf ?Mf input = Some ?T,
    Hd : getType ?Mf (length (vars_ _)) = Some ?t |- verify ?Mf _ = _ =>
      assert (typeOf Mf (length (vars_ _)) = Some T) as Hdest
        by (unfold typeOf in *; rewrite Hd; by rewrite Ht in HT)
  end.
  by verify_with_facts.
Qed.

Lemma createArithmeticOp_verifies M LHS RHS op :
  wlp (createArithmeticOp LHS RHS op) M (λ I M',
    getType M LHS = getType M RHS → verifies M' I).
Proof.
  unfold createArithmeticOp, createArithmeticInst. repeat builder_step.
  intros Hsame. unfold verifies. rewrite verify_instrs.
  match goal with H : getType M LHS = Some _ |- _ =>
    rewrite H in Hsame; symmetry in Hsame end.
  declared_facts. by verify_with_facts.
Qed.

(** ** The high-level operators as one family *)

(** C1 (as amended). For every high-level operator constructor, whenever the
    construction succeeds (its own assertions hold and it reads nothing out
    of range), the instruction it emits passes [verify()] in the module as
    it is right after the construction; for Reshape provided the new shape
    has the element count of the input, and for Arithmetic provided the two
    operands have the identical type. *)
Theorem construction_then_verify M op I M' :
  createOp op M = Some (I, M') →
  checked_by_verify_only M op →
  verifies M' I.
Proof.
  intros Hrun Hside. destruct op; simpl in Hrun, Hside.
  - by eapply createConvOp_verifies.
  - by eapply createPoolOp_verifies.
  - by eapply createFullyConnectedOp_verifies.
  - by eapply createRELUOp_verifies.
  - by eapply createSigmoidOp_verifies.
  - by eapply createTanhOp_verifies.
  - by eapply createSoftMaxOp_verifies.
  - by eapply createRegressionOp_verifies.
  - destruct Hside as (d & Hd & Hcount).
    apply (createReshapeOp_verifies _ _ _ _ _ Hrun _ Hd).
    by rewrite !wrap_product_elementCount, Hcount.
  - by eapply createTransposeOp_verifies.
  - by eapply createConcatOp_verifies.
  - by eapply createBatchNormalizationOp_verifies.
  - by eapply (createArithmeticOp_verifies _ _ _ _ _ _ Hrun).
Qed.

Lemma construction_then_verify_witness :
  verifies
    (mkModule [mkType FloatTy [2; 3; 4]; mkType FloatTy [4; 2; 3]]
       [mkStaticVariable 0 "input" kExtern kActivation (float_lit 0);
        mkStaticVariable 1 EmptyString kExtern kActivation (float_lit 0)]
       [mkInstruction (TransposeInst [2; 0; 1]%nat) [1; 0]%nat])
    (mkInstruction (TransposeInst [2; 0; 1]%nat) [1; 0]%nat).
Proof.
  apply (construction_then_verify (moduleWithInput FloatTy [2; 3; 4])
           (TransposeOp 0 [2; 0; 1]%nat)).
  - reflexivity.
  - exact I.
Defined.

(** C1, as it is stated, fails: [createReshapeOp] accepts a new shape of 5
    elements for an input of 6, and the instruction it emits does not pass
    [verify()]. *)
Lemma construction_then_verify_counterexample :
  createOp (ReshapeOp 0 [5]) (moduleWithInput FloatTy [2; 3])
  = Some (mkInstruction (ReshapeInst [5]) [1; 0]%nat,
          mkModule [mkType FloatTy [2; 3]; mkType FloatTy [5]]
            [mkStaticVariable 0 "input" kExtern kActivation (float_lit 0);
             mkStaticVariable 1 EmptyString kExtern kActivation (float_lit 0)]
            [mkInstruction (ReshapeInst [5]) [1; 0]%nat])
  ∧ verify
      (mkModule [mkType FloatTy [2; 3]; mkType FloatTy [5]]
         [mkStaticVariable 0 "input" kExtern kActivation (float_lit 0);
          mkStaticVariable 1 EmptyString kExtern kActivation (float_lit 0)]
         [mkInstruction (ReshapeInst [5]) [1; 0]%nat])
      (mkInstruction (ReshapeInst [5]) [1; 0]%nat) = None
  ∧ ¬ (∀ M op I M', createOp op M = Some (I, M') → verifies M' I).
Proof.
  split; [reflexivity|]. split; [reflexivity|].
  intros Hclaim.
  specialize (Hclaim (moduleWithInput FloatTy [2; 3]) (ReshapeOp 0 [5]) _ _
                eq_refl).
  discriminate Hclaim.
Qed.

(** Arithmetic on operands of one shape and two element kinds: the
    constructor asserts equal shapes and succeeds, [verify()] asserts
    identical types and fails. *)
Example createArithmeticOp_mixed_kinds :
  createArithmeticOp 0 1 ArithmeticInst.kAdd
    (mkModule [mkType FloatTy [2; 3]; mkType IndexTy [2; 3]]
       [mkStaticVariable 0 "lhs" kExtern kActivation (float_lit 0);
        mkStaticVariable 1 "rhs" kExtern kActivation (float_lit 0)] [])
  = Some (mkInstruction (ArithmeticInst ArithmeticInst.kAdd) [2; 0; 1]%nat,
          mkModule [mkType FloatTy [2; 3]; mkType IndexTy [2; 3]]
            [mkStaticVariable 0 "lhs" kExtern kActivation (float_lit 0);
             mkStaticVariable 1 "rhs" kExtern kActivation (float_lit 0);
             mkStaticVariable 0 EmptyString kExtern kActivation (float_lit 0)]
            [mkInstruction (ArithmeticInst ArithmeticInst.kAdd)
               [2; 0; 1]%nat])
  ∧ verify
      (mkModule [mkType FloatTy [2; 3]; mkType IndexTy [2; 3]]
         [mkStaticVariable 0 "lhs" kExtern kActivation (float_lit 0);
          mkStaticVariable 1 "rhs" kExtern kActivation (float_lit 0);
          mkStaticVariable 0 EmptyString kExtern kActivation (float_lit 0)]
         [mkInstruction (ArithmeticInst ArithmeticInst.kAdd) [2; 0; 1]%nat])
      (mkInstruction (ArithmeticInst ArithmeticInst.kAdd) [2; 0; 1]%nat)
    = None.
Proof. split; reflexivity. Qed.

(** Every high-level operator only adds to the module. *)
Lemma createOp_extends M op : wlp (createOp op) M (λ _ M', extends M M').
Proof.
  destruct op as [| ? kind ? ? ? | | | | | | | | | | |]; simpl;
    unfold createConvOp, createConvolutionInst, createPoolOp, createPoolInst,
      createFullyConnectedOp, createFullyConnectedInst, createRELUOp,
      createReluInst, createSigmoidOp, createSigmoidInst, createTanhOp,
      createTanhInst, createSoftMaxOp, createSoftMaxInst, createRegressionOp,
      createRegressionInst, createReshapeOp, createReshapeInst,
      createTransposeOp, createTransposeInst, createConcatOp,
      createConcatInst, createBatchNormalizationOp,
      createBatchNormalizationInst, createArithmeticOp, createArithmeticInst;
    try destruct kind; repeat builder_step;
    repeat match goal with
    | H : declares _ _ _ _ _ _ _ _ |- _ => apply declares_extends in H
    | H : declaresT _ _ _ _ _ _ _ |- _ => apply declaresT_extends in H
    end;
    repeat (eapply extends_trans; [eassumption|]);
    by split.
Qed.

(** ** Convolution and pooling: shapes and buffers *)

Lemma wrap_small z : is_size z → wrap z = z.
Proof. intros Hz. by apply Z.mod_small. Qed.

Lemma outputDim_convOutput extent pad kernel stride :
  is_size (extent + 2 * pad - kernel) →
  is_size (convOutput extent pad kernel stride) →
  outputDim extent pad kernel stride = convOutput extent pad kernel stride.
Proof.
  intros Hin Hout. unfold outputDim, convOutput in *.
  assert (wrap (wrap (extent + wrap (pad * 2)) - kernel)
          = extent + 2 * pad - kernel) as ->.
  { unfold wrap. rewrite Zminus_mod_idemp_l.
    replace (extent + (pad * 2) `mod` size_max - kernel)
      with (extent - kernel + (pad * 2) `mod` size_max) by lia.
    rewrite Zplus_mod_idemp_r.
    replace (extent - kernel + pad * 2) with (extent + 2 * pad - kernel)
      by lia.
    by apply Z.mod_small. }
  by apply wrap_small.
Qed.

Lemma buffer_extends M M' v elemTy shape name initKind shareKind val :
  extends M M' →
  buffer M v elemTy shape name initKind shareKind val →
  buffer M' v elemTy shape name initKind shareKind val.
Proof.
  intros [Hty Hvars] (t & Hv & Ht). exists t.
  split; by eapply prefix_lookup_Some.
Qed.

Lemma declares_buffer M M' A elemTy shape name initKind shareKind val :
  declares M M' A (mkType elemTy shape) name initKind shareKind val →
  buffer M' A elemTy shape name initKind shareKind val.
Proof. apply declares_var. Qed.

Lemma buffer_instrs M instrs v elemTy shape name initKind shareKind val :
  buffer M v elemTy shape name initKind shareKind val →
  buffer (mkModule (types_ M) (vars_ M) instrs) v elemTy shape name initKind
    shareKind val.
Proof. done. Qed.

Lemma dims_instrs M instrs v :
  dims (mkModule (types_ M) (vars_ M) instrs) v = dims M v.
Proof. reflexivity. Qed.

(** C2 (as amended). For every input of shape (N,H,W,C) with H >= kernel and
    W >= kernel, a stride that is not 0, and no wrap-around on [size_t]
    (H + 2*pad - kernel, W + 2*pad - kernel, the two output extents and
    kernel*kernel*C are below 2^64), Convolution returns an output of shape
    (N, floor((H + 2*pad - kernel)/stride) + 1,
    floor((W + 2*pad - kernel)/stride) + 1, depth), a Weight filter buffer
    of shape (depth, kernel, kernel, C) initialized Xavier with fan-in
    kernel*kernel*C, and a Weight bias buffer of shape (depth) initialized
    Broadcast(0.1). *)
Theorem createConvOp_shapes M input N H W C depth kernel stride pad :
  dims M input = Some [N; H; W; C] →
  kernel ≤ H → kernel ≤ W →
  stride ≠ 0 →
  is_size (H + 2 * pad - kernel) → is_size (W + 2 * pad - kernel) →
  is_size (convOutput H pad kernel stride) →
  is_size (convOutput W pad kernel stride) →
  is_size (kernel * kernel * C) →
  conv_as_specified M input N H W C depth kernel stride pad.
Proof.
  intros Hdims HkH HkW Hstride HinH HinW HoutH HoutW Hfan.
  assert (wp (createConvOp input depth kernel stride pad) M (λ I M',
    ∃ dest filter bias,
      operands I = [dest; input; filter; bias]
      ∧ dims M' dest
        = Some [N; convOutput H pad kernel stride;
                convOutput W pad kernel stride; depth]
      ∧ buffer M' filter FloatTy [depth; kernel; kernel; C] "filter" kXavier
          kWeight (float_of_size (kernel * kernel * C))
      ∧ buffer M' bias FloatTy [depth] "bias" kBroadcast kWeight
          (float_lit (1 # 10)))) as (I & M' & Hrun & HQ).
  { unfold createConvOp, createConvolutionInst.
    apply wp_bind. eapply wp_read; [by rewrite Hdims|]. simpl.
    apply wp_bind. apply wp_assert.
    { apply andb_true_intro. split; by apply Z.leb_le. }
    apply wp_bind. eapply wp_read.
    { unfold calculateOutputDims.
      by rewrite (proj2 (Z.eqb_neq stride 0) Hstride). }
    simpl. rewrite !outputDim_convOutput by done.
    assert (wrap (wrap (kernel * kernel) * C) = kernel * kernel * C) as ->.
    { unfold wrap. rewrite Zmult_mod_idemp_l. by apply Z.mod_small. }
    repeat builder_step.
    eexists _, _, _. split; [reflexivity|].
    rewrite dims_instrs. split; [|split].
    - by erewrite typeOf_dims by (by eapply declares_typeOf).
    - apply buffer_instrs.
      eapply buffer_extends; [|eapply buffer_extends];
        [by eapply declares_extends..|by eapply declares_buffer].
    - apply buffer_instrs.
      eapply buffer_extends; [by eapply declares_extends|].
      by eapply declares_buffer. }
  destruct HQ as (dest & filter & bias & HQ).
  by exists I, M', dest, filter, bias.
Qed.

(** The instance of the spec: input (1,32,32,3), kernel 5, stride 1, pad 2,
    depth 16 give output (1,32,32,16), filter (16,5,5,3) and bias (16). *)
Lemma createConvOp_shapes_witness :
  conv_as_specified (moduleWithInput FloatTy [1; 32; 32; 3]) 0
    1 32 32 3 16 5 1 2.
Proof.
  apply createConvOp_shapes; unfold is_size, size_max;
    by vm_compute.
Defined.

Example createConvOp_instance :
  createConvOp 0 16 5 1 2 (moduleWithInput FloatTy [1; 32; 32; 3])
  = Some (mkInstruction (ConvolutionInst 5 1 2 16) [3; 0; 1; 2]%nat,
          mkModule
            [mkType FloatTy [1; 32; 32; 3]; mkType FloatTy [16; 5; 5; 3];
             mkType FloatTy [16]; mkType FloatTy [1; 32; 32; 16]]
            [mkStaticVariable 0 "input" kExtern kActivation (float_lit 0);
             mkStaticVariable 1 "filter" kXavier kWeight (float_of_size 75);
             mkStaticVariable 2 "bias" kBroadcast kWeight (float_lit (1 # 10));
             mkStaticVariable 3 EmptyString kExtern kActivation (float_lit 0)]
            [mkInstruction (ConvolutionInst 5 1 2 16) [3; 0; 1; 2]%nat]).
Proof. reflexivity. Qed.

(** C2, as it is stated, fails where [size_t] wraps around: for an input of
    shape (1, 2^32, 2^32, 1) and a kernel of 2^32 (so H >= kernel and
    W >= kernel), [kernel * kernel * idim.c] is 0 on [size_t], and the
    filter is initialized Xavier with the fan-in 0, not 2^64. It fails as
    well for the stride 0, where the output size is a division by zero and
    the construction does not return. *)
Lemma createConvOp_shapes_counterexample :
  createConvOp 0 16 5 0 2 (moduleWithInput FloatTy [1; 32; 32; 3]) = None
  ∧ dims (moduleWithInput FloatTy [1; 2 ^ 32; 2 ^ 32; 1]) 0
    = Some [1; 2 ^ 32; 2 ^ 32; 1]
  ∧ 2 ^ 32 ≤ 2 ^ 32
  ∧ (∃ I M',
       createConvOp 0 1 (2 ^ 32) 1 0
         (moduleWithInput FloatTy [1; 2 ^ 32; 2 ^ 32; 1]) = Some (I, M')
       ∧ operands I = [3; 0; 1; 2]%nat
       ∧ buffer M' 1 FloatTy [1; 2 ^ 32; 2 ^ 32; 1] "filter" kXavier kWeight
           (float_of_size 0))
  ∧ ¬ conv_as_specified (moduleWithInput FloatTy [1; 2 ^ 32; 2 ^ 32; 1]) 0
        1 (2 ^ 32) (2 ^ 32) 1 1 (2 ^ 32) 1 0.
Proof.
  split; [reflexivity|]. split; [reflexivity|]. split; [done|]. split.
  - eexists _, _. split; [by vm_compute|]. split; [reflexivity|].
    exists 0%nat. by vm_compute.
  - intros (I & M' & dest & filter & bias & Hrun & Hops & _ & Hfilter & _).
    vm_compute in Hrun. injection Hrun as <- <-.
    simpl in Hops. injection Hops as _ <- _.
    destruct Hfilter as (t & Hvar & _). vm_compute in Hvar. discriminate Hvar.
Qed.

Lemma getElementType_instrs M instrs v :
  getElementType (mkModule (types_ M) (vars_ M) instrs) v
  = getElementType M v.
Proof. reflexivity. Qed.

(** C8 (as amended). For every input of shape (N,H,W,C) with H >= kernel and
    W >= kernel, a stride that is not 0, and no wrap-around on [size_t]
    (H + 2*pad - kernel, W + 2*pad - kernel and the two output extents are
    below 2^64), Pooling returns an output of shape (N, outH, outW, C) with
    the output-size formula of convolution; the auxiliary buffer is
    index-typed, of shape (N, outH, outW, C, 2) for Max and of the empty
    shape for Avg. *)
Theorem createPoolOp_shapes M input N H W C kind kernel stride pad :
  dims M input = Some [N; H; W; C] →
  kernel ≤ H → kernel ≤ W →
  stride ≠ 0 →
  is_size (H + 2 * pad - kernel) → is_size (W + 2 * pad - kernel) →
  is_size (convOutput H pad kernel stride) →
  is_size (convOutput W pad kernel stride) →
  pool_as_specified M input N H W C kind kernel stride pad.
Proof.
  intros Hdims HkH HkW Hstride HinH HinW HoutH HoutW.
  assert (wp (createPoolOp input kind kernel stride pad) M (λ I M',
    ∃ dest srcXY,
      operands I = [dest; input; srcXY]
      ∧ dims M' dest
        = Some [N; convOutput H pad kernel stride;
                convOutput W pad kernel stride; C]
      ∧ getElementType M' srcXY = Some IndexTy
      ∧ dims M' srcXY
        = Some match kind with
               | PoolInst.kMax =>
                   [N; convOutput H pad kernel stride;
                    convOutput W pad kernel stride; C; 2]
               | PoolInst.kAvg => []
               end)) as (I & M' & Hrun & HQ).
  { unfold createPoolOp, createPoolInst.
    apply wp_bind. eapply wp_read; [by rewrite Hdims|]. simpl.
    apply wp_bind. apply wp_assert.
    { apply andb_true_intro. split; by apply Z.leb_le. }
    apply wp_bind. eapply wp_read.
    { unfold calculateOutputDims.
      by rewrite (proj2 (Z.eqb_neq stride 0) Hstride). }
    simpl. rewrite !outputDim_convOutput by done.
    destruct kind; repeat builder_step;
      (eexists _, _; split; [reflexivity|];
       rewrite !dims_instrs, getElementType_instrs;
       match goal with
       | Hxy : declares M ?M1 _ _ _ _ _ _, Hd : declares ?M1 ?M2 _ _ _ _ _ _
         |- _ =>
           pose proof (declares_typeOf _ _ _ _ _ _ _ _ Hd) as HTd;
           pose proof (extends_typeOf _ _ _ _
                         (declares_extends _ _ _ _ _ _ _ _ Hd)
                         (declares_typeOf _ _ _ _ _ _ _ _ Hxy)) as HTxy
       end;
       by rewrite (typeOf_dims _ _ _ HTd), (typeOf_dims _ _ _ HTxy),
            (typeOf_getElementType _ _ _ HTxy)). }
  destruct HQ as (dest & srcXY & HQ).
  by exists I, M', dest, srcXY.
Qed.

(** The instance of the spec: Max pooling of input (1,16,16,8) with kernel
    2, stride 2, pad 0 gives output (1,8,8,8) and the auxiliary buffer
    (1,8,8,8,2). *)
Lemma createPoolOp_shapes_witness :
  pool_as_specified (moduleWithInput FloatTy [1; 16; 16; 8]) 0
    1 16 16 8 PoolInst.kMax 2 2 0.
Proof.
  apply createPoolOp_shapes; unfold is_size, size_max;
    by vm_compute.
Defined.

Example createPoolOp_instance :
  createPoolOp 0 PoolInst.kMax 2 2 0 (moduleWithInput FloatTy [1; 16; 16; 8])
  = Some (mkInstruction (PoolInst PoolInst.kMax 2 2 0) [2; 0; 1]%nat,
          mkModule
            [mkType FloatTy [1; 16; 16; 8]; mkType IndexTy [1; 8; 8; 8; 2];
             mkType FloatTy [1; 8; 8; 8]]
            [mkStaticVariable 0 "input" kExtern kActivation (float_lit 0);
             mkStaticVariable 1 "srcXY" kExtern kActivation (float_lit 0);
             mkStaticVariable 2 EmptyString kExtern kActivation (float_lit 0)]
            [mkInstruction (PoolInst PoolInst.kMax 2 2 0) [2; 0; 1]%nat]).
Proof. reflexivity. Qed.

(** C8, as it is stated, fails where [size_t] wraps around: with pad 2^63
    twice the pad is 0 on [size_t], and pooling an input (1,16,16,8) with
    kernel 2 and stride 1 gives the output (1,15,15,8), where the formula
    asks for extents of 2^64 + 15, which no [size_t] holds. It fails as well
    for the stride 0, where the output size is a division by zero and the
    construction does not return. *)
Lemma createPoolOp_shapes_counterexample :
  createPoolOp 0 PoolInst.kMax 2 0 0 (moduleWithInput FloatTy [1; 16; 16; 8])
  = None
  ∧ dims (moduleWithInput FloatTy [1; 16; 16; 8]) 0 = Some [1; 16; 16; 8]
  ∧ 2 ≤ 16
  ∧ (∃ I M',
       createPoolOp 0 PoolInst.kMax 2 1 (2 ^ 63)
         (moduleWithInput FloatTy [1; 16; 16; 8]) = Some (I, M')
       ∧ operands I = [2; 0; 1]%nat
       ∧ dims M' 2 = Some [1; 15; 15; 8])
  ∧ convOutput 16 (2 ^ 63) 2 1 = 2 ^ 64 + 15
  ∧ ¬ pool_as_specified (moduleWithInput FloatTy [1; 16; 16; 8]) 0
        1 16 16 8 PoolInst.kMax 2 1 (2 ^ 63).
Proof.
  split; [reflexivity|]. split; [reflexivity|]. split; [done|].
  split; [|split; [reflexivity|]].
  - eexists _, _. split; [by vm_compute|]. split; reflexivity.
  - intros (I & M' & dest & srcXY & Hrun & Hops & Hdest & _).
    vm_compute in Hrun. injection Hrun as <- <-.
    simpl in Hops. injection Hops as <- _.
    vm_compute in Hdest. discriminate Hdest.
Qed.

(** ** Type interning *)

Lemma createStaticVariable_declares M M' A elemTy dims name initKind
    shareKind val :
  createStaticVariable elemTy dims name initKind shareKind val M
  = Some (A, M') →
  declares M M' A (mkType elemTy dims) name initKind shareKind val.
Proof.
  intros Hrun.
  destruct (createStaticVariable_run M elemTy dims name initKind shareKind val)
    as (M0 & Hrun0 & Hdecl).
  rewrite Hrun in Hrun0. by injection Hrun0 as -> ->.
Qed.

(** Interning a type a second time, after any further construction, returns
    the handle of the first time and leaves the module as it is. *)
Lemma uniqueType_repeat M M1 M1' elemTy dims t :
  uniqueType elemTy dims M = Some (t, M1) →
  extends M1 M1' →
  uniqueType elemTy dims M1' = Some (t, M1').
Proof.
  intros Hrun [Hext _].
  destruct (uniqueType_run M elemTy dims)
    as (t0 & M0 & Hrun0 & _ & Ht & Hfirst & _).
  rewrite Hrun in Hrun0. injection Hrun0 as <- <-.
  unfold uniqueType.
  assert (list_find (λ tp, tp = mkType elemTy dims) (types_ M1')
          = Some (t, mkType elemTy dims)) as ->; [|done].
  apply list_find_Some. split; [by eapply prefix_lookup_Some|].
  split; [done|]. intros j T' Hj Hlt.
  apply (Hfirst j T'); [|done].
  destruct (lookup_lt_is_Some_2 (types_ M1) j) as [T'' HT''].
  { apply lookup_lt_Some in Ht. lia. }
  rewrite (prefix_lookup_Some _ _ _ _ HT'' Hext) in Hj. congruence.
Qed.

(** C3. Two buffer declarations of one module, the second made after any
    further construction: their types are the identical [Type] object when
    they are created with the same element kind and structurally the same
    shape, and never when their shapes differ; and a repeated intern call
    with structurally equal arguments returns the same [Type] identity. *)
Theorem type_interning_canonical M M1 M1' M2 A B
    elemTy1 dims1 name1 initKind1 shareKind1 val1
    elemTy2 dims2 name2 initKind2 shareKind2 val2 :
  createStaticVariable elemTy1 dims1 name1 initKind1 shareKind1 val1 M
  = Some (A, M1) →
  extends M1 M1' →
  createStaticVariable elemTy2 dims2 name2 initKind2 shareKind2 val2 M1'
  = Some (B, M2) →
  ∃ tA tB,
    getType M2 A = Some tA ∧ getType M2 B = Some tB
    ∧ (elemTy1 = elemTy2 → dims1 = dims2 → tA = tB)
    ∧ (dims1 ≠ dims2 → tA ≠ tB)
    ∧ (∀ t M', uniqueType elemTy1 dims1 M = Some (t, M') →
               ∀ M'', extends M' M'' →
                      uniqueType elemTy1 dims1 M'' = Some (t, M'')).
Proof.
  intros HA Hext HB.
  apply createStaticVariable_declares in HA, HB.
  pose proof (declares_extends _ _ _ _ _ _ _ _ HA) as HMM1.
  pose proof (declares_extends _ _ _ _ _ _ _ _ HB) as HM1M2.
  destruct (declares_getType _ _ _ _ _ _ _ _ HA) as (tA & HtA & HTA & HfirstA).
  destruct (declares_getType _ _ _ _ _ _ _ _ HB) as (tB & HtB & HTB & HfirstB).
  assert (extends M1 M2) as HM1M2' by by eapply extends_trans.
  exists tA, tB. split; [by eapply extends_getType|]. split; [done|].
  assert (types_ M2 !! tA = Some (mkType elemTy1 dims1)) as HTA2.
  { destruct HM1M2' as [Hpre _]. by eapply prefix_lookup_Some. }
  split; [|split].
  - intros -> ->.
    destruct (Nat.lt_trichotomy tA tB) as [Hlt|[Heq|Hgt]]; [|done|].
    + by destruct (HfirstB _ _ HTA2 Hlt).
    + destruct (lookup_lt_is_Some_2 (types_ M1) tB) as [T HT].
      { apply lookup_lt_Some in HTA. lia. }
      destruct HM1M2' as [Hpre _].
      rewrite (prefix_lookup_Some _ _ _ _ HT Hpre) in HTB.
      injection HTB as ->. by destruct (HfirstA _ _ HT Hgt).
  - intros Hne ->. rewrite HTA2 in HTB. by injection HTB.
  - intros t M' Hrun M'' HM'. by eapply uniqueType_repeat.
Qed.

Lemma type_interning_canonical_witness :
  ∃ tA tB,
    getType (mkModule [mkType FloatTy [2; 3]]
               [mkStaticVariable 0 "a" kExtern kActivation (float_lit 0);
                mkStaticVariable 0 "b" kBroadcast kWeight (float_lit 1)] [])
            0 = Some tA
    ∧ getType (mkModule [mkType FloatTy [2; 3]]
                 [mkStaticVariable 0 "a" kExtern kActivation (float_lit 0);
                  mkStaticVariable 0 "b" kBroadcast kWeight (float_lit 1)] [])
              1 = Some tB
    ∧ (FloatTy = FloatTy → [2; 3] = [2; 3] → tA = tB)
    ∧ ([2; 3] ≠ [2; 3] → tA ≠ tB)
    ∧ (∀ t M', uniqueType FloatTy [2; 3] (mkModule [] [] []) = Some (t, M') →
               ∀ M'', extends M' M'' →
                      uniqueType FloatTy [2; 3] M'' = Some (t, M'')).
Proof.
  apply (type_interning_canonical (mkModule [] [] [])
           (mkModule [mkType FloatTy [2; 3]]
              [mkStaticVariable 0 "a" kExtern kActivation (float_lit 0)] [])
           (mkModule [mkType FloatTy [2; 3]]
              [mkStaticVariable 0 "a" kExtern kActivation (float_lit 0)] [])
           _ 0%nat 1%nat
           FloatTy [2; 3] "a" kExtern kActivation (float_lit 0)
           FloatTy [2; 3] "b" kBroadcast kWeight (float_lit 1)).
  - reflexivity.
  - apply extends_refl.
  - reflexivity.
Defined.

(** Three declarations in a row: the shapes (2,3), (3,2) and (2,3) again get
    the types 0, 1 and 0. *)
Example interning_three_declarations :
  (createStaticVariable FloatTy [2; 3] "a" kExtern kActivation (float_lit 0);;
   createStaticVariable FloatTy [3; 2] "b" kExtern kActivation (float_lit 0);;
   createStaticVariable FloatTy [2; 3] "c" kExtern kActivation (float_lit 0))
    (mkModule [] [] [])
  = Some (2%nat,
          mkModule [mkType FloatTy [2; 3]; mkType FloatTy [3; 2]]
            [mkStaticVariable 0 "a" kExtern kActivation (float_lit 0);
             mkStaticVariable 1 "b" kExtern kActivation (float_lit 0);
             mkStaticVariable 0 "c" kExtern kActivation (float_lit 0)] []).
Proof. reflexivity. Qed.

(** ** The two overloads of [createStaticVariable] and the name *)

(** C10. The [TypeRef] overload of [createStaticVariable] ignores its name
    argument: for every type, name, init kind, share kind and value the
    declaration it creates is the one the constructor returned, without a
    name, where the overload on an element kind and a shape sets the name;
    the "expected" buffer of SoftMax, operand 2 of the instruction, is
    created by the [TypeRef] overload and has no name. *)
Theorem createStaticVariable_TypeRef_unnamed :
  (∀ M T name initKind shareKind val,
     ∃ A M1,
       createStaticVariableT T name initKind shareKind val M = Some (A, M1)
       ∧ vars_ M1 !! A = Some (new_StaticVariable T initKind shareKind val)
       ∧ getName M1 A = Some EmptyString)
  ∧ (∀ M elemTy dims name initKind shareKind val,
       ∃ A M1,
         createStaticVariable elemTy dims name initKind shareKind val M
         = Some (A, M1)
         ∧ getName M1 A = Some name)
  ∧ (∀ M input selected I M',
       createSoftMaxOp input selected M = Some (I, M') →
       ∃ E, getOperand I 2 = Some E ∧ getName M' E = Some EmptyString).
Proof.
  split; [|split].
  - intros M T name initKind shareKind val.
    eexists _, _. split; [apply createStaticVariableT_run|]. simpl.
    unfold getName. simpl. by rewrite lookup_app_r, Nat.sub_diag.
  - intros M elemTy dims name initKind shareKind val.
    destruct (createStaticVariable_run M elemTy dims name initKind shareKind val)
      as (M1 & Hrun1 & Hdecl).
    eexists _, _. split; [exact Hrun1|].
    destruct (declares_var _ _ _ _ _ _ _ _ Hdecl) as (t & Hv & _).
    unfold getName. by rewrite Hv.
  - intros M input selected.
    change (wlp (createSoftMaxOp input selected)
      M (λ I M', ∃ E, getOperand I 2 = Some E ∧ getName M' E = Some EmptyString)).
    unfold createSoftMaxOp, createSoftMaxInst. repeat builder_step.
    eexists. split; [reflexivity|].
    match goal with H : declaresT _ ?M2 (length (vars_ ?M1)) _ _ _ _ |- _ =>
      pose proof (declaresT_var _ _ _ _ _ _ _ H) as Hv end.
    unfold getName. simpl. by rewrite Hv.
Qed.

Lemma createStaticVariable_TypeRef_unnamed_witness :
  (∃ A M1,
     createStaticVariableT 0 "expected" kExtern kActivation (float_lit 0)
       (mkModule [] [] []) = Some (A, M1)
     ∧ vars_ M1 !! A = Some (new_StaticVariable 0 kExtern kActivation (float_lit 0))
     ∧ getName M1 A = Some EmptyString)
  ∧ (∃ E, getOperand (mkInstruction SoftMaxInst [1; 0; 2; 0]%nat) 2 = Some E
        ∧ getName
            (mkModule [mkType FloatTy [4; 10]]
               [mkStaticVariable 0 "input" kExtern kActivation (float_lit 0);
                mkStaticVariable 0 EmptyString kExtern kActivation (float_lit 0);
                mkStaticVariable 0 EmptyString kExtern kActivation (float_lit 0)]
               [mkInstruction SoftMaxInst [1; 0; 2; 0]%nat]) E
          = Some EmptyString).
Proof.
  split.
  - apply (proj1 createStaticVariable_TypeRef_unnamed (mkModule [] [] [])
             0%nat "expected" kExtern kActivation (float_lit 0)).
  - apply (proj2 (proj2 createStaticVariable_TypeRef_unnamed)
             (moduleWithInput FloatTy [4; 10]) 0%nat 0%nat).
    reflexivity.
Defined.

(** ** Reshape *)

(** C4 (as amended). A Reshape instruction passes [verify()] if and only if
    the element counts of the output's and of the input's shape, as
    [Type::size] takes them on [size_t], are equal; when both products of
    the extents are below 2^64 this is the equality of the products, and
    mismatched products fail verification. [createReshapeOp] does not check
    this: it succeeds on every declared input and every new shape, and what
    it emits passes [verify()] exactly under the same condition. *)
Theorem reshape_verify_iff_same_count :
  (∀ M I dims_ dest src Td Ts,
     instKind I = ReshapeInst dims_ →
     getOperand I 0 = Some dest →
     getOperand I 1 = Some src →
     typeOf M dest = Some Td →
     typeOf M src = Some Ts →
     (verifies M I ↔ Type_size Td = Type_size Ts)
     ∧ (is_size (elementCount (sizes Td)) →
        is_size (elementCount (sizes Ts)) →
        (verifies M I ↔ elementCount (sizes Td) = elementCount (sizes Ts))
        ∧ (elementCount (sizes Td) ≠ elementCount (sizes Ts) →
           verify M I = None)))
  ∧ (∀ M input d shape,
       dims M input = Some d →
       ∃ I' M',
         createReshapeOp input shape M = Some (I', M')
         ∧ instrs_ M' = instrs_ M ++ [I']
         ∧ instKind I' = ReshapeInst shape
         ∧ (verifies M' I' ↔ wrap_product shape = wrap_product d)
         ∧ (is_size (elementCount shape) → is_size (elementCount d) →
            (verifies M' I' ↔ elementCount shape = elementCount d))).
Proof.
  split.
  - intros M I dims_ dest src Td Ts Hkind Hop0 Hop1 HTd HTs.
    assert (verify M I
            = check (bool_decide (Type_size Td = Type_size Ts))) as Hv.
    { unfold verify. rewrite Hkind, Hop0, Hop1. simpl. by rewrite HTd, HTs. }
    split.
    + unfold verifies. by rewrite Hv, check_Some, bool_decide_eq_true.
    + intros Hd Hs. unfold Type_size in Hv.
      rewrite !wrap_product_small in Hv by done. split.
      * unfold verifies. by rewrite Hv, check_Some, bool_decide_eq_true.
      * intros Hne. rewrite Hv. by rewrite bool_decide_eq_false_2.
  - intros M input d shape Hd.
    assert (wp (createReshapeOp input shape) M (λ I' M',
      instrs_ M' = instrs_ M ++ [I'] ∧ instKind I' = ReshapeInst shape))
      as (I' & M' & Hrun & Hinstrs & Hkind).
    { destruct (dims_typeOf _ _ _ Hd) as (T & HT & Hsz).
      unfold createReshapeOp, createReshapeInst.
      apply wp_bind. eapply wp_read; [by apply typeOf_getElementType|].
      repeat builder_step. simpl. split; [|done]. f_equal.
      match goal with H : declares _ _ _ _ _ _ _ _ |- _ =>
        by destruct H as (t & _ & _ & _ & _ & _ & ?) end. }
    exists I', M'. split; [done|]. split; [done|]. split; [done|].
    pose proof (createReshapeOp_verifies M input shape _ _ Hrun _ Hd) as Hv.
    split; [done|]. intros Hshape Hsize.
    by rewrite Hv, !wrap_product_small.
Qed.

Lemma reshape_verify_iff_same_count_witness :
  (verifies
     (mkModule [mkType FloatTy [2; 3]; mkType FloatTy [6]]
        [mkStaticVariable 0 "input" kExtern kActivation (float_lit 0);
         mkStaticVariable 1 EmptyString kExtern kActivation (float_lit 0)] [])
     (mkInstruction (ReshapeInst [6]) [1; 0]%nat)
   ↔ elementCount [6] = elementCount [2; 3])
  ∧ (∃ I' M',
       createReshapeOp 0 [5] (moduleWithInput FloatTy [2; 3]) = Some (I', M')
       ∧ (verifies M' I' ↔ elementCount [5] = elementCount [2; 3])).
Proof.
  split.
  - apply (proj1 reshape_verify_iff_same_count
             (mkModule [mkType FloatTy [2; 3]; mkType FloatTy [6]]
                [mkStaticVariable 0 "input" kExtern kActivation (float_lit 0);
                 mkStaticVariable 1 EmptyString kExtern kActivation
                   (float_lit 0)] [])
             (mkInstruction (ReshapeInst [6]) [1; 0]%nat) [6]
             1%nat 0%nat (mkType FloatTy [6]) (mkType FloatTy [2; 3]));
      try reflexivity; unfold is_size, size_max; by vm_compute.
  - destruct (proj2 reshape_verify_iff_same_count
                (moduleWithInput FloatTy [2; 3]) 0%nat [2; 3] [5] eq_refl)
      as (I' & M' & Hrun & _ & _ & _ & Hv).
    exists I', M'. split; [exact Hrun|].
    apply Hv; unfold is_size, size_max; by vm_compute.
Defined.

(** C4, as it is stated, fails: the products of the extents of (2^32, 2^32)
    and of (0) differ, 2^64 against 0, and the Reshape of the one to the
    other passes [verify()], the two counts being equal on [size_t]. *)
Lemma reshape_verify_iff_same_count_counterexample :
  elementCount [0] ≠ elementCount [2 ^ 32; 2 ^ 32]
  ∧ ∃ I' M',
      createReshapeOp 0 [0] (moduleWithInput FloatTy [2 ^ 32; 2 ^ 32])
      = Some (I', M')
      ∧ instKind I' = ReshapeInst [0]
      ∧ getOperand I' 0 ≫= dims M' = Some [0]
      ∧ getOperand I' 1 ≫= dims M' = Some [2 ^ 32; 2 ^ 32]
      ∧ verify M' I' = Some tt.
Proof.
  split; [by vm_compute|].
  eexists _, _. split; [by vm_compute|]. repeat split; by vm_compute.
Qed.

(** ** Transpose *)

Lemma shuffleDims_Some dims shuffle shape :
  shuffleDims dims shuffle = Some shape
  ↔ length shape = length dims
    ∧ ∀ i, (i < length dims)%nat →
           ∃ j, shuffle !! i = Some j ∧ is_Some (dims !! j)
                ∧ shape !! i = dims !! j.
Proof.
  unfold shuffleDims. rewrite mapM_Some. split.
  - intros Hall. split.
    { apply Forall2_length in Hall. by rewrite length_seq in Hall. }
    intros i Hi.
    destruct (Forall2_lookup_l _ _ _ i i Hall) as (y & Hy & Hf).
    { by apply lookup_seq. }
    apply bind_Some in Hf as (j & Hj & Hdj).
    exists j. split; [done|]. split; [by eexists|]. congruence.
  - intros [Hlen Hall]. apply Forall2_same_length_lookup_2.
    { by rewrite length_seq. }
    intros i x y Hx Hy. apply lookup_seq in Hx as [-> Hi]. simpl.
    destruct (Hall i Hi) as (j & Hj & _ & Hs).
    rewrite Hj. simpl. congruence.
Qed.

Lemma shuffleDims_is_Some dims shuffle :
  (∀ i, (i < length dims)%nat →
        ∃ j, shuffle !! i = Some j ∧ (j < length dims)%nat) →
  is_Some (shuffleDims dims shuffle).
Proof.
  intros Hall. unfold shuffleDims. apply mapM_is_Some, Forall_forall.
  intros i Hi. apply elem_of_seq in Hi as [_ Hi]. simpl in Hi.
  destruct (Hall i Hi) as (j & Hj & Hlt). simpl. rewrite Hj. simpl.
  by apply lookup_lt_is_Some_2.
Qed.




Lemma permutation_lookup (shuffle : list nat) r i :
  shuffle ≡ₚ seq 0 r → (i < r)%nat →
  ∃ j, shuffle !! i = Some j ∧ (j < r)%nat.
Proof.
  intros Hperm Hi.
  destruct (lookup_lt_is_Some_2 shuffle i) as [j Hj].
  { by rewrite Hperm, length_seq. }
  exists j. split; [done|].
  apply list_elem_of_lookup_2 in Hj. rewrite Hperm in Hj.
  by apply elem_of_seq in Hj as [_ Hj].
Qed.

Lemma inverseShuffle_lookup (shuffle : list nat) r j :
  shuffle ≡ₚ seq 0 r → (j < r)%nat →
  ∃ i, inverseShuffle shuffle !! j = Some i ∧ shuffle !! i = Some j
       ∧ (i < r)%nat.
Proof.
  intros Hperm Hj.
  assert (length shuffle = r) as Hlen by by rewrite Hperm, length_seq.
  assert (j ∈ shuffle) as Hin by (rewrite Hperm; apply elem_of_seq; lia).
  destruct (list_find_elem_of (λ x, x = j) shuffle j Hin eq_refl)
    as [[i y] Hfind].
  pose proof Hfind as Hfind'.
  apply list_find_Some in Hfind' as (Hi & -> & _).
  exists i. unfold inverseShuffle.
  rewrite list_lookup_fmap, Hlen, lookup_seq_lt by done. simpl.
  rewrite Hfind. simpl. split; [done|]. split; [done|].
  apply lookup_lt_Some in Hi. lia.
Qed.

(** The shape the shuffle gives, shuffled with the inverse, is the shape. *)
Lemma shuffleDims_inverse dims shuffle shape :
  shuffle ≡ₚ seq 0 (length dims) →
  shuffleDims dims shuffle = Some shape →
  shuffleDims shape (inverseShuffle shuffle) = Some dims.
Proof.
  intros Hperm Hshape. apply shuffleDims_Some in Hshape as [Hlen Hall].
  apply shuffleDims_Some. split; [done|]. rewrite Hlen. intros j Hj.
  destruct (inverseShuffle_lookup _ _ _ Hperm Hj) as (i & Hi & Hsi & Hlt).
  exists i. split; [done|].
  destruct (Hall i Hlt) as (j' & Hj' & Hdj & Hs).
  rewrite Hsi in Hj'. injection Hj' as <-.
  rewrite Hs. split; [done|]. done.
Qed.

Lemma createTransposeOp_run M input dims_ shuffle shape :
  dims M input = Some dims_ →
  shuffleDims dims_ shuffle = Some shape →
  wp (createTransposeOp input shuffle) M (λ I M',
    ∃ dest, I = mkInstruction (TransposeInst shuffle) [dest; input]
          ∧ dims M' dest = Some shape
          ∧ extends M M'
          ∧ instrs_ M' = instrs_ M ++ [I]).
Proof.
  intros Hd Hshape. destruct (dims_typeOf _ _ _ Hd) as (T & HT & Hsz).
  unfold createTransposeOp, createTransposeInst.
  apply wp_bind. eapply wp_read; [exact Hd|].
  apply wp_bind. eapply wp_read; [exact Hshape|].
  apply wp_bind. eapply wp_read; [by apply typeOf_getElementType|].
  repeat builder_step. eexists. split; [reflexivity|].
  rewrite dims_instrs.
  match goal with H : declares _ _ _ _ _ _ _ _ |- _ =>
    pose proof (declares_typeOf _ _ _ _ _ _ _ _ H) as HTd;
    pose proof (declares_extends _ _ _ _ _ _ _ _ H) as [? ?];
    destruct H as (? & _ & _ & _ & _ & _ & Hinstrs)
  end.
  split; [by rewrite (typeOf_dims _ _ _ HTd)|].
  split; [by split|]. simpl. by rewrite Hinstrs.
Qed.

(** C5. For every input of rank r and every permutation of the axes 0..r-1,
    Transpose returns an output whose extent at every axis [i] is the extent
    of the input at the axis [shuffle[i]]; and Transpose of that output with
    the inverse permutation returns the shape of the input. *)
Theorem createTransposeOp_permutes M input dims_ shuffle :
  dims M input = Some dims_ →
  shuffle ≡ₚ seq 0 (length dims_) →
  ∃ I M' dest shape,
    createTransposeOp input shuffle M = Some (I, M')
    ∧ operands I = [dest; input]
    ∧ dims M' dest = Some shape
    ∧ length shape = length dims_
    ∧ (∀ i j, shuffle !! i = Some j → shape !! i = dims_ !! j)
    ∧ ∃ I2 M2 dest2,
        createTransposeOp dest (inverseShuffle shuffle) M' = Some (I2, M2)
        ∧ operands I2 = [dest2; dest]
        ∧ dims M2 dest2 = Some dims_.
Proof.
  intros Hd Hperm.
  destruct (shuffleDims_is_Some dims_ shuffle) as [shape Hshape].
  { intros i Hi. by eapply permutation_lookup. }
  destruct (createTransposeOp_run _ _ _ _ _ Hd Hshape)
    as (I & M' & Hrun & dest & -> & Hdest & _ & _).
  pose proof (shuffleDims_inverse _ _ _ Hperm Hshape) as Hinv.
  destruct (createTransposeOp_run _ _ _ _ _ Hdest Hinv)
    as (I2 & M2 & Hrun2 & dest2 & -> & Hdest2 & _ & _).
  eexists _, M', dest, shape. split; [exact Hrun|].
  split; [done|]. split; [done|].
  apply shuffleDims_Some in Hshape as [Hlen Hall].
  split; [done|]. split.
  - intros i j Hij.
    assert (i < length dims_)%nat as Hi.
    { apply lookup_lt_Some in Hij. by rewrite Hperm, length_seq in Hij. }
    destruct (Hall i Hi) as (j' & Hj' & _ & Hs). congruence.
  - eexists _, M2, dest2. split; [exact Hrun2|]. done.
Qed.

Lemma createTransposeOp_permutes_witness :
  ∃ I M' dest shape,
    createTransposeOp 0 [2; 0; 1]%nat (moduleWithInput FloatTy [2; 3; 4])
    = Some (I, M')
    ∧ operands I = [dest; 0%nat]
    ∧ dims M' dest = Some shape
    ∧ length shape = length [2; 3; 4]
    ∧ (∀ i j, [2; 0; 1]%nat !! i = Some j → shape !! i = [2; 3; 4] !! j)
    ∧ ∃ I2 M2 dest2,
        createTransposeOp dest (inverseShuffle [2; 0; 1]%nat) M'
        = Some (I2, M2)
        ∧ operands I2 = [dest2; dest]
        ∧ dims M2 dest2 = Some [2; 3; 4].
Proof.
  apply (createTransposeOp_permutes (moduleWithInput FloatTy [2; 3; 4]) 0%nat
           [2; 3; 4] [2; 0; 1]%nat).
  - reflexivity.
  - simpl. rewrite <- (Permutation_cons_append [0; 1]%nat 2%nat). done.
Defined.




(** ** Concat *)

(** What [ConcatInst::verify] asserts of an instruction with the operands
    [dest :: in0 :: rest]. *)
Lemma verify_ConcatInst M dim dest in0 rest inDim :
  dims M in0 = Some inDim →
  verify M (mkInstruction (ConcatInst dim) (dest :: in0 :: rest)) = Some tt
  ↔ Forall (λ v, dims M v = Some inDim) rest
    ∧ ∃ shape,
        stackShape inDim dim (Z.of_nat (length (in0 :: rest))) = Some shape
        ∧ dims M dest = Some shape.
Proof.
  intros Hin0. unfold verify, getNumOperands, getOperand. simpl.
  rewrite check_true by (apply Z.ltb_lt; lia). simpl.
  rewrite Hin0. simpl. rewrite drop_0.
  replace (Z.of_nat (S (S (length rest))) - 1)
    with (Z.of_nat (S (length rest))) by lia.
  rewrite <- checkInputShapes_Some.
  destruct (checkInputShapes (dims M) inDim rest) as [[]|]; simpl;
    [|by split; [|intros [? _]]].
  destruct (stackShape inDim dim (Z.of_nat (S (length rest))))
    as [shape|]; simpl; [|by split; [|intros (_ & ? & ? & _)]].
  destruct (dims M dest) as [d|]; simpl;
    [|by split; [|intros (_ & ? & _ & ?)]].
  rewrite check_Some, bool_decide_eq_true. split.
  - intros ->. split; [done|]. by exists shape.
  - intros (_ & shape' & [= <-] & [= ->]). done.
Qed.

(** C6 (as amended). For every non-empty list of N inputs that all have the
    shape S and every axis k of S, with S[k] * N below 2^64 (no wrap-around
    on [size_t]), Concat returns an output whose shape is S except that the
    extent at k is S[k] * N; [ConcatInst::verify] computes the same stacked
    shape again and accepts the output only with this shape. *)
Theorem createConcatOp_shapes M inputs S k x :
  inputs ≠ [] →
  Forall (λ v, dims M v = Some S) inputs →
  S !! k = Some x →
  is_size (x * Z.of_nat (length inputs)) →
  concat_as_specified M inputs S k.
Proof.
  intros Hne Hall Hk Hsize.
  destruct inputs as [|in0 rest]; [done|].
  pose proof Hall as Hall'. apply Forall_cons in Hall' as [Hin0 Hrest].
  destruct (dims_typeOf _ _ _ Hin0) as (T & HT & Hsz).
  assert (stackShape S k (Z.of_nat (length (in0 :: rest)))
          = Some (stackedShape S k (Z.of_nat (length (in0 :: rest)))))
    as Hstack.
  { unfold stackShape, stackedShape. rewrite Hk. simpl.
    rewrite wrap_small by done. f_equal.
    apply list_eq. intros i. rewrite list_lookup_alter.
    destruct (decide (k = i)) as [<-|Hki].
    - rewrite list_lookup_insert_eq by by eapply lookup_lt_Some.
      by rewrite Hk.
    - by rewrite list_lookup_insert_ne. }
  assert (wp (createConcatOp (in0 :: rest) k) M (λ I M',
    ∃ dest, I = mkInstruction (ConcatInst k) (dest :: in0 :: rest)
          ∧ dims M' dest
            = Some (stackedShape S k (Z.of_nat (length (in0 :: rest))))
          ∧ extends M M')) as (I & M' & Hrun & dest & -> & Hdest & Hext).
  { unfold createConcatOp, createConcatInst.
    apply wp_bind. eapply wp_read; [reflexivity|].
    apply wp_bind. eapply wp_read; [exact Hin0|].
    apply wp_bind. eapply wp_read; [by apply checkInputShapes_Some|].
    apply wp_bind. eapply wp_read; [exact Hstack|].
    apply wp_bind. eapply wp_read; [by apply typeOf_getElementType|].
    repeat builder_step. eexists. split; [reflexivity|].
    rewrite dims_instrs.
    match goal with H : declares _ _ _ _ _ _ _ _ |- _ =>
      pose proof (declares_typeOf _ _ _ _ _ _ _ _ H) as HTd;
      pose proof (declares_extends _ _ _ _ _ _ _ _ H) as [? ?]
    end.
    split; [by rewrite (typeOf_dims _ _ _ HTd)|]. by split. }
  assert (dims M' in0 = Some S) as Hin0'.
  { rewrite <- Hsz. apply typeOf_dims. by eapply extends_typeOf. }
  eexists _, M', dest. split; [exact Hrun|]. split; [done|].
  split; [done|]. split.
  - by eapply (createConcatOp_verifies M (in0 :: rest) k).
  - intros dest' Hv. apply (verify_ConcatInst _ _ _ _ _ _ Hin0') in Hv
      as (_ & shape & Hshape & Hd').
    rewrite Hstack in Hshape. by injection Hshape as <-.
Qed.

(** The instance of the spec: 3 inputs of shape (2,4,4,6) on axis 3 give the
    output (2,4,4,18). *)
Lemma createConcatOp_shapes_witness :
  concat_as_specified (moduleWithInput FloatTy [2; 4; 4; 6]) [0; 0; 0]%nat
    [2; 4; 4; 6] 3.
Proof.
  apply (createConcatOp_shapes _ _ _ _ 6).
  - done.
  - repeat constructor.
  - reflexivity.
  - unfold is_size, size_max. by vm_compute.
Defined.

Example createConcatOp_instance :
  createConcatOp [0; 0; 0]%nat 3 (moduleWithInput FloatTy [2; 4; 4; 6])
  = Some (mkInstruction (ConcatInst 3) [1; 0; 0; 0]%nat,
          mkModule
            [mkType FloatTy [2; 4; 4; 6]; mkType FloatTy [2; 4; 4; 18]]
            [mkStaticVariable 0 "input" kExtern kActivation (float_lit 0);
             mkStaticVariable 1 EmptyString kExtern kActivation (float_lit 0)]
            [mkInstruction (ConcatInst 3) [1; 0; 0; 0]%nat]).
Proof. reflexivity. Qed.

(** C6, as it is stated, fails where [size_t] wraps around: two inputs of
    shape (2^63) stacked on axis 0 give the output shape (0), not (2^64). *)
Lemma createConcatOp_shapes_counterexample :
  Forall (λ v, dims (moduleWithInput FloatTy [2 ^ 63]) v = Some [2 ^ 63])
    [0; 0]%nat
  ∧ (∃ I M',
       createConcatOp [0; 0]%nat 0 (moduleWithInput FloatTy [2 ^ 63])
       = Some (I, M')
       ∧ operands I = [1; 0; 0]%nat
       ∧ dims M' 1 = Some [0])
  ∧ stackedShape [2 ^ 63] 0 (Z.of_nat (length [0; 0]%nat)) = [2 ^ 64]
  ∧ ¬ concat_as_specified (moduleWithInput FloatTy [2 ^ 63]) [0; 0]%nat
        [2 ^ 63] 0.
Proof.
  split; [by repeat constructor|]. split; [|split; [reflexivity|]].
  - eexists _, _. split; [by vm_compute|]. split; reflexivity.
  - intros (I & M' & dest & Hrun & -> & Hdest & _).
    vm_compute in Hrun. injection Hrun as <- <-.
    vm_compute in Hdest. discriminate Hdest.
Qed.

(** C7 (as amended). [ConcatInst::verify] asserts that the instruction has
    more than one operand, the output included: verification fails for
    every Concat instruction without a source operand, in every module and
    whatever its output, and a Concat instruction with exactly one source
    operand passes it when its output has the shape of the source and the
    axis is one of this shape. *)
Theorem concat_arity :
  (∀ M I dim,
     instKind I = ConcatInst dim →
     (length (drop 1 (operands I)) < 1)%nat →
     verify M I = None)
  ∧ (∀ M I dim dest src inDim x,
       instKind I = ConcatInst dim →
       operands I = [dest; src] →
       dims M src = Some inDim →
       dims M dest = Some inDim →
       inDim !! dim = Some x →
       is_size x →
       (length (drop 1 (operands I)) < 2)%nat ∧ verifies M I).
Proof.
  split.
  - intros M I dim Hkind Hlen. unfold verify, getNumOperands. rewrite Hkind.
    destruct (operands I) as [|? [|? ?]]; simpl in *; [done|done|lia].
  - intros M I dim dest src inDim x Hkind Hops Hsrc Hdest Hx Hsize.
    split; [rewrite Hops; simpl; lia|].
    destruct I as [kind ops]. simpl in *. subst.
    apply (verify_ConcatInst _ _ _ _ _ _ Hsrc). split; [constructor|].
    exists inDim. split; [|done].
    unfold stackShape. rewrite Hx. simpl.
    rewrite Z.mul_1_r, wrap_small by done. by rewrite list_insert_id.
Qed.

Lemma concat_arity_witness :
  verify (moduleWithInput FloatTy [2; 6])
    (mkInstruction (ConcatInst 7) [0%nat]) = None
  ∧ verifies (moduleWithInput FloatTy [2; 6])
      (mkInstruction (ConcatInst 1) [0; 0]%nat).
Proof.
  split.
  - apply (proj1 concat_arity (moduleWithInput FloatTy [2; 6])
             (mkInstruction (ConcatInst 7) [0%nat]) 7%nat); [reflexivity|].
    simpl. lia.
  - apply (proj2 concat_arity (moduleWithInput FloatTy [2; 6])
             (mkInstruction (ConcatInst 1) [0; 0]%nat) 1%nat 0%nat 0%nat
             [2; 6] 6); try reflexivity.
    unfold is_size, size_max. by vm_compute.
Defined.

(** C7, as it is stated, fails: a Concat instruction with one source operand
    passes [verify()]. *)
Lemma concat_arity_counterexample :
  (length (drop 1 (operands (mkInstruction (ConcatInst 1) [1; 0]%nat))) < 2)%nat
  ∧ verify
      (mkModule [mkType FloatTy [2; 6]]
         [mkStaticVariable 0 "input" kExtern kActivation (float_lit 0);
          mkStaticVariable 0 EmptyString kExtern kActivation (float_lit 0)]
         [mkInstruction (ConcatInst 1) [1; 0]%nat])
      (mkInstruction (ConcatInst 1) [1; 0]%nat) = Some tt.
Proof. split; [simpl; lia|]. reflexivity. Qed.

(** * Further properties of the builder and of the verifier *)

(** ** What an operator adds to the module *)

Lemma declares_frame M M' A T name initKind shareKind val :
  declares M M' A T name initKind shareKind val →
  A = length (vars_ M)
  ∧ length (vars_ M') = S (length (vars_ M))
  ∧ instrs_ M' = instrs_ M.
Proof.
  intros (t & -> & _ & _ & _ & Hvars & Hinstrs).
  rewrite Hvars, length_app. simpl. split; [done|]. split; [lia|done].
Qed.

Lemma declaresT_frame M M' A T initKind shareKind val :
  declaresT M M' A T initKind shareKind val →
  A = length (vars_ M)
  ∧ length (vars_ M') = S (length (vars_ M))
  ∧ instrs_ M' = instrs_ M
  ∧ types_ M' = types_ M.
Proof.
  intros (-> & Hty & Hvars & Hinstrs).
  rewrite Hvars, length_app. simpl. split; [done|]. split; [lia|done].
Qed.

(** Unfolds a high-level operator and its low-level constructor. *)
Ltac unfold_op :=
  unfold createConvOp, createConvolutionInst, createPoolOp, createPoolInst,
    createFullyConnectedOp, createFullyConnectedInst, createRELUOp,
    createReluInst, createSigmoidOp, createSigmoidInst, createTanhOp,
    createTanhInst, createSoftMaxOp, createSoftMaxInst, createRegressionOp,
    createRegressionInst, createReshapeOp, createReshapeInst,
    createTransposeOp, createTransposeInst, createConcatOp,
    createConcatInst, createBatchNormalizationOp,
    createBatchNormalizationInst, createArithmeticOp, createArithmeticInst.

(** The declarations of the context as equations on the lengths and on the
    instruction lists. *)
Ltac frame_facts :=
  repeat match goal with
  | H : declares _ _ _ _ _ _ _ _ |- _ =>
      apply declares_frame in H as (? & ? & ?)
  | H : declaresT _ _ _ _ _ _ _ |- _ =>
      apply declaresT_frame in H as (? & ? & ? & ?)
  end.

Lemma createOp_frame M op :
  wlp (createOp op) M (λ I M',
    instrs_ M' = instrs_ M ++ [I]
    ∧ length (vars_ M') = (length (vars_ M) + declaredBuffers op)%nat
    ∧ ∃ dest, getOperand I 0 = Some dest
            ∧ (length (vars_ M) ≤ dest < length (vars_ M'))%nat).
Proof.
  destruct op as [| ? kind ? ? ? | | | | | | | | | | |]; simpl; unfold_op;
    try destruct kind; repeat builder_step; frame_facts; simpl;
    unfold getOperand; simpl;
    (split; [congruence|]); (split; [lia|]);
    eexists; (split; [reflexivity|]); lia.
Qed.

(** ** Verification and later construction *)

Lemma extends_dims M M' v d :
  extends M M' → dims M v = Some d → dims M' v = Some d.
Proof.
  intros Hext Hd. apply dims_typeOf in Hd as (T & HT & <-).
  apply typeOf_dims. by eapply extends_typeOf.
Qed.

Lemma checkInputShapes_extends M M' inDim inputs :
  extends M M' →
  checkInputShapes (dims M) inDim inputs = Some tt →
  checkInputShapes (dims M') inDim inputs = Some tt.
Proof.
  intros Hext. rewrite !checkInputShapes_Some. intros Hall.
  eapply Forall_impl; [exact Hall|]. intros v. by apply extends_dims.
Qed.

(** Splits a successful run of [verify] into the reads it made. *)
Ltac verify_reads H :=
  unfold verify, checkSameType, getOperand in H; simpl in H;
  repeat match goal with
  | H' : _ ≫= _ = Some _ |- _ => apply bind_Some in H' as (? & ? & ?)
  | H' : check _ = Some _ |- _ => apply check_Some in H'
  | u : unit |- _ => destruct u
  end.

(** What passes [verify()] in a module passes it in every module that
    extends it: [verify] reads declarations and types, which keep their
    handles. *)
Lemma verify_mono M M' I :
  extends M M' → verifies M I → verifies M' I.
Proof.
  intros Hext Hv. unfold verifies in *. destruct I as [kind ops].
  destruct kind as [| | k | | | | | | | | | | |]; try destruct k;
    verify_reads Hv;
    repeat match goal with
    | H : dims M _ = Some _ |- _ => apply (extends_dims _ _ _ _ Hext) in H
    | H : getType M _ = Some _ |- _ =>
        apply (extends_getType _ _ _ _ Hext) in H
    | H : typeOf M _ = Some _ |- _ =>
        apply (extends_typeOf _ _ _ _ Hext) in H
    | H : checkInputShapes (dims M) _ _ = Some _ |- _ =>
        apply (checkInputShapes_extends _ _ _ _ Hext) in H
    end;
    repeat match goal with
    | H1 : ?x = Some _, H2 : ?x = Some _ |- _ =>
        rewrite H1 in H2; simplify_eq
    end;
    unfold verify, checkSameType, getOperand, getNumOperands in *; simpl in *;
    repeat (match goal with
    | H : ?x = Some _ |- context [?x] => rewrite H
    | H : ?x = true |- context [?x] => rewrite H
    end; simpl);
    done.
Qed.

(** X1. The builder keeps a verified module verified: when every
    instruction of the module passes [verify()], a high-level operator that
    succeeds (for Reshape with the element count of the input, for
    Arithmetic on operands of the identical type) leaves a module in which
    every instruction, the new one included, passes [verify()]. *)
Theorem builder_keeps_module_verified M op I M' :
  verifies_all M →
  createOp op M = Some (I, M') →
  checked_by_verify_only M op →
  verifies_all M'.
Proof.
  intros Hall Hrun Hside. unfold verifies_all.
  destruct (createOp_frame M op I M' Hrun) as (-> & _ & _).
  pose proof (createOp_extends M op I M' Hrun) as Hext.
  apply Forall_app. split.
  - eapply Forall_impl; [exact Hall|]. intros I0. by apply verify_mono.
  - apply Forall_singleton. destruct op; simpl in Hrun, Hside.
    + by eapply createConvOp_verifies.
    + by eapply createPoolOp_verifies.
    + by eapply createFullyConnectedOp_verifies.
    + by eapply createRELUOp_verifies.
    + by eapply createSigmoidOp_verifies.
    + by eapply createTanhOp_verifies.
    + by eapply createSoftMaxOp_verifies.
    + by eapply createRegressionOp_verifies.
    + destruct Hside as (d & Hd & Hcount).
      apply (createReshapeOp_verifies _ _ _ _ _ Hrun _ Hd).
      by rewrite !wrap_product_elementCount, Hcount.
    + by eapply createTransposeOp_verifies.
    + by eapply createConcatOp_verifies.
    + by eapply createBatchNormalizationOp_verifies.
    + by eapply (createArithmeticOp_verifies _ _ _ _ _ _ Hrun).
Qed.

Lemma builder_keeps_module_verified_witness :
  ∃ I M',
    createOp (PoolOp 2 PoolInst.kAvg 1 1 0) pooledModule = Some (I, M')
    ∧ verifies_all M'.
Proof.
  eexists _, _. split; [reflexivity|].
  apply (builder_keeps_module_verified pooledModule
           (PoolOp 2 PoolInst.kAvg 1 1 0)
           (mkInstruction (PoolInst PoolInst.kAvg 1 1 0) [4; 2; 3]%nat)).
  - repeat constructor.
  - reflexivity.
  - exact I.
Defined.

(** X2. A high-level operator that succeeds emits exactly one instruction,
    the one it returns, after all instructions of the module (program order
    is construction order); the types and the buffer declarations that the
    module had keep their handles and their contents. *)
Theorem operator_appends_its_instruction M op I M' :
  createOp op M = Some (I, M') →
  instrs_ M' = instrs_ M ++ [I]
  ∧ (∀ t T, types_ M !! t = Some T → types_ M' !! t = Some T)
  ∧ (∀ v sv, vars_ M !! v = Some sv → vars_ M' !! v = Some sv).
Proof.
  intros Hrun.
  destruct (createOp_frame M op I M' Hrun) as (Hinstrs & _ & _).
  destruct (createOp_extends M op I M' Hrun) as [Hty Hvars].
  split; [done|]. split; intros; by eapply prefix_lookup_Some.
Qed.

Lemma operator_appends_its_instruction_witness :
  ∃ I M',
    createOp (RELUOp 2) pooledModule = Some (I, M')
    ∧ instrs_ M' = instrs_ pooledModule ++ [I]
    ∧ (∀ t T, types_ pooledModule !! t = Some T → types_ M' !! t = Some T)
    ∧ (∀ v sv, vars_ pooledModule !! v = Some sv → vars_ M' !! v = Some sv).
Proof.
  eexists _, _. split; [reflexivity|].
  apply (operator_appends_its_instruction pooledModule (RELUOp 2)).
  reflexivity.
Defined.

(** X3. The output of a high-level operator is a buffer that the operator
    itself declares: operand 0 of the instruction is not a value of the
    module before the call, so it never aliases an input or any older
    buffer; and the operator declares the number of buffers of its kind
    (Convolution and FullyConnected 3, Pooling and SoftMax 2,
    BatchNormalization 5, the others 1). *)
Theorem operator_output_is_fresh M op I M' :
  createOp op M = Some (I, M') →
  length (vars_ M') = (length (vars_ M) + declaredBuffers op)%nat
  ∧ ∃ dest, getOperand I 0 = Some dest
          ∧ vars_ M !! dest = None
          ∧ is_Some (vars_ M' !! dest).
Proof.
  intros Hrun.
  destruct (createOp_frame M op I M' Hrun)
    as (_ & Hlen & dest & Hdest & Hge & Hlt).
  split; [done|]. exists dest. split; [done|]. split.
  - by apply lookup_ge_None.
  - by apply lookup_lt_is_Some.
Qed.

Lemma operator_output_is_fresh_witness :
  ∃ I M',
    createOp (SoftMaxOp 2 0) pooledModule = Some (I, M')
    ∧ length (vars_ M')
      = (length (vars_ pooledModule) + declaredBuffers (SoftMaxOp 2 0))%nat
    ∧ ∃ dest, getOperand I 0 = Some dest
            ∧ vars_ pooledModule !! dest = None
            ∧ is_Some (vars_ M' !! dest).
Proof.
  eexists _, _. split; [reflexivity|].
  apply (operator_output_is_fresh pooledModule (SoftMaxOp 2 0)).
  reflexivity.
Defined.

(** ** When the operators abort *)

Lemma wp_is_Some {A} (m : Builder A) M Q : wp m M Q → is_Some (m M).
Proof. intros (a & M' & Hrun & _). by eexists. Qed.

Lemma wlp_is_Some {A} (m : Builder A) M (P : Prop) :
  wlp m M (λ _ _, P) → is_Some (m M) → P.
Proof. intros Hwlp [[a M'] Hrun]. by eapply Hwlp. Qed.

(** X4. Convolution and Pooling succeed exactly on an input of rank 4 whose
    height and width are at least the kernel, with a stride other than 0;
    on every other input the construction aborts. *)
Theorem conv_pool_succeed_iff M input depth kind kernel stride pad :
  (is_Some (createConvOp input depth kernel stride pad M)
   ↔ ∃ N H W C, dims M input = Some [N; H; W; C]
                ∧ kernel ≤ W ∧ kernel ≤ H ∧ stride ≠ 0)
  ∧ (is_Some (createPoolOp input kind kernel stride pad M)
     ↔ ∃ N H W C, dims M input = Some [N; H; W; C]
                  ∧ kernel ≤ W ∧ kernel ≤ H ∧ stride ≠ 0).
Proof.
  assert (∀ (idim : ShapeNHWC) (outSz : Z * Z) (d : option (list Z)),
    d ≫= ShapeNHWC_of = Some idim →
    (kernel <=? w idim) && (kernel <=? h idim) = true →
    calculateOutputDims (h idim) (w idim) pad kernel stride = Some outSz →
    ∃ N H W C, d = Some [N; H; W; C]
               ∧ kernel ≤ W ∧ kernel ≤ H ∧ stride ≠ 0) as Hnec.
  { intros idim outSz d Hd Hk Hout.
    apply bind_Some in Hd as (shape & -> & Hshape).
    apply ShapeNHWC_of_Some in Hshape as ->.
    apply andb_prop in Hk as [HkW HkH]. apply Z.leb_le in HkW, HkH.
    exists (n idim), (h idim), (w idim), (c idim).
    repeat split; try done.
    intros ->. by unfold calculateOutputDims in Hout. }
  split; split.
  - apply wlp_is_Some. unfold createConvOp, createConvolutionInst.
    repeat builder_step. by eapply Hnec.
  - intros (N & H & W & C & Hd & HkW & HkH & Hstride).
    eapply wp_is_Some with (Q := λ _ _, True).
    unfold createConvOp, createConvolutionInst.
    apply wp_bind. eapply wp_read; [by rewrite Hd|]. simpl.
    apply wp_bind. apply wp_assert.
    { apply andb_true_intro. split; by apply Z.leb_le. }
    apply wp_bind. eapply wp_read.
    { unfold calculateOutputDims.
      by rewrite (proj2 (Z.eqb_neq stride 0) Hstride). }
    by repeat builder_step.
  - apply wlp_is_Some. unfold createPoolOp, createPoolInst.
    destruct kind; repeat builder_step; by eapply Hnec.
  - intros (N & H & W & C & Hd & HkW & HkH & Hstride).
    eapply wp_is_Some with (Q := λ _ _, True).
    unfold createPoolOp, createPoolInst.
    apply wp_bind. eapply wp_read; [by rewrite Hd|]. simpl.
    apply wp_bind. apply wp_assert.
    { apply andb_true_intro. split; by apply Z.leb_le. }
    apply wp_bind. eapply wp_read.
    { unfold calculateOutputDims.
      by rewrite (proj2 (Z.eqb_neq stride 0) Hstride). }
    destruct kind; by repeat builder_step.
Qed.

(** ** Operators that reuse the type of their input *)

Lemma sameTypeInput_getType M op input :
  sameTypeInput op = Some input →
  wlp (createOp op) M (λ I M',
    ∃ dest t,
      getOperand I 0 = Some dest
      ∧ getOperand I 1 = Some input
      ∧ getType M input = Some t
      ∧ getType M' dest = Some t).
Proof.
  destruct op; simpl; try done; intros [= ->]; unfold_op;
    repeat builder_step;
    repeat match goal with
    | H : _ ≫= _ = Some _ |- _ => apply bind_Some in H as (? & ? & ?)
    end;
    declared_facts;
    match goal with
    | Ht : getType M input = Some ?t
      |- ∃ _ _, getOperand (new_Instruction _ ?A _) _ = _ ∧ _ =>
        exists A, t
    end;
    (split; [reflexivity|]); (split; [reflexivity|]); (split; [done|]);
    unfold getType in *; simpl in *; congruence.
Qed.

Lemma internsNothing_types M op :
  internsNothing op = true →
  wlp (createOp op) M (λ _ M', types_ M' = types_ M).
Proof.
  destruct op; simpl; try done; intros _; unfold_op;
    repeat builder_step; frame_facts; simpl; congruence.
Qed.

(** X5. Relu, Sigmoid, Tanh, SoftMax, Regression, BatchNormalization and
    Arithmetic give their output the type of their (first) input as it is:
    the output, operand 0, has the identical type handle as the input,
    operand 1; all of them but BatchNormalization intern no type, so the
    registry of the module is unchanged. *)
Theorem output_shares_input_type M op input I M' :
  sameTypeInput op = Some input →
  createOp op M = Some (I, M') →
  (∃ dest t,
     getOperand I 0 = Some dest
     ∧ getOperand I 1 = Some input
     ∧ getType M input = Some t
     ∧ getType M' dest = Some t)
  ∧ (internsNothing op = true → types_ M' = types_ M).
Proof.
  intros Hop Hrun. split.
  - by eapply (sameTypeInput_getType M op input Hop).
  - intros Hno. by eapply (internsNothing_types M op Hno).
Qed.

Lemma output_shares_input_type_witness :
  ∃ I M',
    createOp (SoftMaxOp 2 0) pooledModule = Some (I, M')
    ∧ (∃ dest t,
         getOperand I 0 = Some dest
         ∧ getOperand I 1 = Some 2%nat
         ∧ getType pooledModule 2 = Some t
         ∧ getType M' dest = Some t)
    ∧ (internsNothing (SoftMaxOp 2 0) = true
       → types_ M' = types_ pooledModule).
Proof.
  eexists _, _. split; [reflexivity|].
  apply (output_shares_input_type pooledModule (SoftMaxOp 2 0) 2%nat);
    reflexivity.
Defined.

(** ** Arithmetic *)

Lemma createArithmeticOp_verifies_iff M LHS RHS op :
  wlp (createArithmeticOp LHS RHS op) M (λ I M',
    verifies M' I ↔ getType M LHS = getType M RHS).
Proof.
  unfold createArithmeticOp, createArithmeticInst. repeat builder_step.
  unfold verifies. rewrite verify_instrs.
  repeat match goal with u : unit |- _ => destruct u end.
  match goal with H : getType M LHS = Some ?t |- _ =>
    rename H into HL; rename t into tL end.
  match goal with H : dims M RHS = Some _ |- _ =>
    destruct (dims_typeOf _ _ _ H) as (TR & HTR & _);
    destruct (typeOf_getType _ _ _ HTR) as (tR & HR & _) end.
  match goal with H : declaresT M ?M1 _ _ _ _ _ |- _ =>
    pose proof (declaresT_extends _ _ _ _ _ _ _ H) as Hext;
    pose proof (declaresT_getType _ _ _ _ _ _ _ H) as Hdest end.
  pose proof (extends_getType _ _ _ _ Hext HL) as HL'.
  pose proof (extends_getType _ _ _ _ Hext HR) as HR'.
  unfold verify, checkSameType, getOperand. simpl.
  rewrite Hdest, HL', HR'. simpl.
  rewrite (bool_decide_eq_true_2 (tL = tL) eq_refl). simpl.
  rewrite HL, HR, check_Some, bool_decide_eq_true. split; congruence.
Qed.

(** X6. Arithmetic succeeds exactly when its two operands are declared with
    (structurally) the same shape; what it then emits passes [verify()]
    exactly when the two operands have the identical type: operands of one
    shape and two element kinds are built and fail verification. *)
Theorem arithmetic_succeeds_and_verifies M LHS RHS op :
  (is_Some (createArithmeticOp LHS RHS op M)
   ↔ ∃ d, dims M LHS = Some d ∧ dims M RHS = Some d)
  ∧ ∀ I M', createArithmeticOp LHS RHS op M = Some (I, M') →
            (verifies M' I ↔ getType M LHS = getType M RHS).
Proof.
  split; [split|].
  - apply wlp_is_Some. unfold createArithmeticOp, createArithmeticInst.
    repeat builder_step.
    match goal with H : bool_decide _ = true |- _ =>
      apply bool_decide_eq_true in H as -> end.
    eauto.
  - intros (d & HL & HR). eapply wp_is_Some with (Q := λ _ _, True).
    destruct (dims_typeOf _ _ _ HL) as (TL & HTL & _).
    destruct (typeOf_getType _ _ _ HTL) as (tL & HtL & _).
    unfold createArithmeticOp, createArithmeticInst.
    apply wp_bind. eapply wp_read; [exact HL|].
    apply wp_bind. eapply wp_read; [exact HR|].
    apply wp_bind. apply wp_assert; [by apply bool_decide_eq_true_2|].
    apply wp_bind. eapply wp_read; [exact HtL|].
    by repeat builder_step.
  - apply createArithmeticOp_verifies_iff.
Qed.

Lemma arithmetic_succeeds_and_verifies_witness :
  verifies
    (mkModule [mkType FloatTy [1; 16; 16; 8]; mkType IndexTy [1; 8; 8; 8; 2];
               mkType FloatTy [1; 8; 8; 8]]
       [mkStaticVariable 0 "input" kExtern kActivation (float_lit 0);
        mkStaticVariable 1 "srcXY" kExtern kActivation (float_lit 0);
        mkStaticVariable 2 EmptyString kExtern kActivation (float_lit 0);
        mkStaticVariable 2 EmptyString kExtern kActivation (float_lit 0)]
       [mkInstruction (PoolInst PoolInst.kMax 2 2 0) [2; 0; 1]%nat;
        mkInstruction (ArithmeticInst ArithmeticInst.kMul) [3; 2; 2]%nat])
    (mkInstruction (ArithmeticInst ArithmeticInst.kMul) [3; 2; 2]%nat)
  ↔ getType pooledModule 2 = getType pooledModule 2.
Proof.
  apply (arithmetic_succeeds_and_verifies pooledModule 2%nat 2%nat
           ArithmeticInst.kMul).
  reflexivity.
Defined.

(** ** FullyConnected and BatchNormalization: the buffers *)

(** Finds the declaration of a buffer in the chain of declarations of the
    context. *)
Ltac find_buffer :=
  try apply buffer_instrs;
  repeat first
    [ by eapply declares_buffer
    | eapply buffer_extends;
      [ first [ by eapply declares_extends | by eapply declaresT_extends ] | ] ].

(** X7. FullyConnected of an input whose shape flattens to
    (first, features) declares a Weight buffer "weights" of shape
    (outDepth, features) initialized Xavier with fan-in features, a Weight
    buffer "bias" of shape (outDepth) initialized Broadcast(0.1), and the
    output of shape (first, outDepth); the three have the element kind of
    the input. *)
Theorem createFullyConnectedOp_buffers M input outDepth T first features :
  typeOf M input = Some T →
  flattenCdr (sizes T) = Some (first, features) →
  ∃ I M' dest W B,
    createFullyConnectedOp input outDepth M = Some (I, M')
    ∧ I = mkInstruction (FullyConnectedInst outDepth) [dest; input; W; B]
    ∧ buffer M' W (elementType T) [outDepth; features] "weights" kXavier
        kWeight (float_of_size features)
    ∧ buffer M' B (elementType T) [outDepth] "bias" kBroadcast kWeight
        (float_lit (1 # 10))
    ∧ buffer M' dest (elementType T) [first; outDepth] default_name
        default_initKind default_shareKind default_val.
Proof.
  intros HT Hflat.
  assert (wp (createFullyConnectedOp input outDepth) M (λ I M',
    ∃ dest W B,
      I = mkInstruction (FullyConnectedInst outDepth) [dest; input; W; B]
      ∧ buffer M' W (elementType T) [outDepth; features] "weights" kXavier
          kWeight (float_of_size features)
      ∧ buffer M' B (elementType T) [outDepth] "bias" kBroadcast kWeight
          (float_lit (1 # 10))
      ∧ buffer M' dest (elementType T) [first; outDepth] default_name
          default_initKind default_shareKind default_val))
    as (I & M' & Hrun & dest & W & B & HQ).
  { unfold createFullyConnectedOp, createFullyConnectedInst.
    apply wp_bind. eapply wp_read; [exact HT|].
    apply wp_bind. eapply wp_read.
    { rewrite (typeOf_dims _ _ _ HT). exact Hflat. }
    simpl. repeat builder_step.
    eexists _, _, _. split; [reflexivity|].
    split; [|split]; find_buffer. }
  by exists I, M', dest, W, B.
Qed.

(** Input (4,3,3,8) with outDepth 10: weights (10,72), bias (10), output
    (4,10). *)
Lemma createFullyConnectedOp_buffers_witness :
  ∃ I M' dest W B,
    createFullyConnectedOp 0 10 (moduleWithInput FloatTy [4; 3; 3; 8])
    = Some (I, M')
    ∧ I = mkInstruction (FullyConnectedInst 10) [dest; 0%nat; W; B]
    ∧ buffer M' W FloatTy [10; 72] "weights" kXavier kWeight
        (float_of_size 72)
    ∧ buffer M' B FloatTy [10] "bias" kBroadcast kWeight (float_lit (1 # 10))
    ∧ buffer M' dest FloatTy [4; 10] default_name default_initKind
        default_shareKind default_val.
Proof.
  apply (createFullyConnectedOp_buffers (moduleWithInput FloatTy [4; 3; 3; 8])
           0%nat 10 (mkType FloatTy [4; 3; 3; 8]) 4 72); reflexivity.
Defined.

(** X8. BatchNormalization on a channel axis of the input declares the
    Weight buffers "beta", Broadcast(0), and "gamma", Broadcast(1), and the
    buffers "mean" and "variance" with the default policy, all four of
    element kind Float and of shape (channels), whatever the element kind of
    the input; the instruction has the operands output, input, gamma, beta,
    mean, variance, in this order, and the output has the type of the
    input. On an axis that the input does not have the construction
    aborts. *)
Theorem createBatchNormalizationOp_buffers M input channelIdx epsilon
    momentum t d :
  getType M input = Some t →
  dims M input = Some d →
  (∀ channels, d !! channelIdx = Some channels →
     ∃ I M' dest gamma beta mean variance,
       createBatchNormalizationOp input channelIdx epsilon momentum M
       = Some (I, M')
       ∧ I = mkInstruction
               (BatchNormalizationInst channelIdx epsilon momentum)
               [dest; input; gamma; beta; mean; variance]
       ∧ buffer M' beta FloatTy [channels] "beta" kBroadcast kWeight
           (float_lit 0)
       ∧ buffer M' gamma FloatTy [channels] "gamma" kBroadcast kWeight
           (float_lit 1)
       ∧ buffer M' mean FloatTy [channels] "mean" default_initKind
           default_shareKind default_val
       ∧ buffer M' variance FloatTy [channels] "variance" default_initKind
           default_shareKind default_val
       ∧ getType M' dest = Some t)
  ∧ (d !! channelIdx = None →
     createBatchNormalizationOp input channelIdx epsilon momentum M = None).
Proof.
  intros Ht Hd. split.
  - intros channels Hch.
    assert (wp (createBatchNormalizationOp input channelIdx epsilon momentum)
      M (λ I M',
      ∃ dest gamma beta mean variance,
        I = mkInstruction
              (BatchNormalizationInst channelIdx epsilon momentum)
              [dest; input; gamma; beta; mean; variance]
        ∧ buffer M' beta FloatTy [channels] "beta" kBroadcast kWeight
            (float_lit 0)
        ∧ buffer M' gamma FloatTy [channels] "gamma" kBroadcast kWeight
            (float_lit 1)
        ∧ buffer M' mean FloatTy [channels] "mean" default_initKind
            default_shareKind default_val
        ∧ buffer M' variance FloatTy [channels] "variance" default_initKind
            default_shareKind default_val
        ∧ getType M' dest = Some t))
      as (I & M' & Hrun & dest & gamma & beta & mean & variance & HQ).
    { unfold createBatchNormalizationOp, createBatchNormalizationInst.
      apply wp_bind. eapply wp_read; [by rewrite Hd|].
      do 4 (apply wp_bind; apply wp_createStaticVariable; intros ? ?).
      apply wp_bind. eapply wp_read.
      { repeat (eapply extends_getType; [by eapply declares_extends|]).
        exact Ht. }
      repeat builder_step.
      eexists _, _, _, _, _. split; [reflexivity|].
      split; [|split; [|split; [|split]]]; try find_buffer.
      match goal with H : declaresT _ ?Mb ?A _ _ _ _ |- _ =>
        change (getType Mb A = Some t); by eapply declaresT_getType end. }
    by exists I, M', dest, gamma, beta, mean, variance.
  - intros Hnone.
    unfold createBatchNormalizationOp, mbind, Builder_bind, read.
    rewrite Hd. simpl. by rewrite Hnone.
Qed.

Lemma createBatchNormalizationOp_buffers_witness :
  (∀ channels, [1; 8; 8; 8] !! 3%nat = Some channels →
     ∃ I M' dest gamma beta mean variance,
       createBatchNormalizationOp 2 3 (float_lit 0) (float_lit 1)
         pooledModule = Some (I, M')
       ∧ I = mkInstruction
               (BatchNormalizationInst 3 (float_lit 0) (float_lit 1))
               [dest; 2%nat; gamma; beta; mean; variance]
       ∧ buffer M' beta FloatTy [channels] "beta" kBroadcast kWeight
           (float_lit 0)
       ∧ buffer M' gamma FloatTy [channels] "gamma" kBroadcast kWeight
           (float_lit 1)
       ∧ buffer M' mean FloatTy [channels] "mean" default_initKind
           default_shareKind default_val
       ∧ buffer M' variance FloatTy [channels] "variance" default_initKind
           default_shareKind default_val
       ∧ getType M' dest = Some 2%nat)
  ∧ ([1; 8; 8; 8] !! 3%nat = None →
     createBatchNormalizationOp 2 3 (float_lit 0) (float_lit 1) pooledModule
     = None).
Proof.
  apply (createBatchNormalizationOp_buffers pooledModule 2%nat 3%nat
           (float_lit 0) (float_lit 1) 2%nat [1; 8; 8; 8]); reflexivity.
Defined.

(** ** Concat: when it aborts, and the element count *)

(** X9. On an axis that the shape of the first input has, Concat of two or
    more inputs succeeds exactly when every input is declared with the shape
    of the first: one input of another shape aborts the construction. On an
    empty list of inputs the construction aborts at the read of the first
    input. *)
Theorem createConcatOp_succeeds_iff :
  (∀ M dimension, createConcatOp [] dimension M = None)
  ∧ (∀ M inputs dimension in0 S,
       inputs !! 0%nat = Some in0 →
       dims M in0 = Some S →
       (dimension < length S)%nat →
       (2 ≤ length inputs)%nat →
       is_Some (createConcatOp inputs dimension M)
       ↔ Forall (λ v, dims M v = Some S) inputs).
Proof.
  split; [done|].
  intros M inputs dimension in0 S Hin0 Hd0 Hk _. split.
  - apply wlp_is_Some. unfold createConcatOp, createConcatInst.
    repeat builder_step.
    repeat match goal with u : unit |- _ => destruct u end.
    match goal with H : checkInputShapes _ _ _ = Some _ |- _ =>
      apply checkInputShapes_Some in H end.
    by simplify_eq.
  - intros Hall.
    destruct (lookup_lt_is_Some_2 S dimension Hk) as [x Hx].
    destruct (dims_typeOf _ _ _ Hd0) as (T & HT & _).
    eapply wp_is_Some with (Q := λ _ _, True).
    unfold createConcatOp, createConcatInst.
    apply wp_bind. eapply wp_read; [exact Hin0|].
    apply wp_bind. eapply wp_read; [exact Hd0|].
    apply wp_bind. eapply wp_read; [by apply checkInputShapes_Some|].
    apply wp_bind. eapply wp_read; [unfold stackShape; by rewrite Hx|].
    apply wp_bind. eapply wp_read; [by apply typeOf_getElementType|].
    by repeat builder_step.
Qed.

Lemma createConcatOp_succeeds_iff_witness :
  is_Some (createConcatOp [0; 0]%nat 1 (moduleWithInput FloatTy [2; 6]))
  ↔ Forall (λ v, dims (moduleWithInput FloatTy [2; 6]) v = Some [2; 6])
      [0; 0]%nat.
Proof.
  apply (proj2 createConcatOp_succeeds_iff (moduleWithInput FloatTy [2; 6])
           [0; 0]%nat 1%nat 0%nat [2; 6]); try reflexivity; simpl; lia.
Defined.

Lemma elementCount_alter S k N x :
  S !! k = Some x →
  elementCount (alter (λ y, y * N) k S) = N * elementCount S.
Proof.
  revert k. induction S as [|y S IH]; intros [|k] Hk; simpl in *; try done.
  - injection Hk as ->. unfold elementCount. simpl. lia.
  - change (y * elementCount (alter (λ y, y * N) k S)
            = N * (y * elementCount S)).
    rewrite (IH k Hk). lia.
Qed.

Lemma stackShape_no_wrap S k N x :
  S !! k = Some x → is_size (x * N) →
  stackShape S k N = Some (alter (λ y, y * N) k S).
Proof.
  intros Hk Hsize. unfold stackShape. rewrite Hk. simpl.
  rewrite wrap_small by done. f_equal.
  apply list_eq. intros i. rewrite list_lookup_alter.
  destruct (decide (k = i)) as [<-|Hki].
  - rewrite list_lookup_insert_eq by by eapply lookup_lt_Some.
    by rewrite Hk.
  - by rewrite list_lookup_insert_ne.
Qed.

Lemma createConcatOp_operands M inputs dimension :
  wlp (createConcatOp inputs dimension) M (λ I M',
    extends M M'
    ∧ ∃ dest, I = mkInstruction (ConcatInst dimension) (dest :: inputs)).
Proof.
  unfold createConcatOp, createConcatInst. repeat builder_step.
  split; [|by eexists].
  match goal with H : declares _ _ _ _ _ _ _ _ |- _ =>
    apply declares_extends in H as [? ?] end.
  by split.
Qed.

(** X10. The output of Concat has as many elements as all its inputs
    together: for N inputs of the shape S on an axis k with S[k] * N below
    2^64, the element count of the output that [createConcatOp] declares is
    N times the element count of S. *)
Theorem createConcatOp_element_count M inputs S k x I M' :
  Forall (λ v, dims M v = Some S) inputs →
  S !! k = Some x →
  is_size (x * Z.of_nat (length inputs)) →
  createConcatOp inputs k M = Some (I, M') →
  ∃ dest out,
    getOperand I 0 = Some dest
    ∧ dims M' dest = Some out
    ∧ elementCount out = Z.of_nat (length inputs) * elementCount S.
Proof.
  intros Hall Hk Hsize Hrun.
  destruct (createConcatOp_operands M inputs k I M' Hrun)
    as (Hext & dest & ->).
  pose proof (createConcatOp_verifies M inputs k _ M' Hrun) as Hv.
  destruct inputs as [|in0 rest].
  { by vm_compute in Hrun. }
  apply Forall_cons in Hall as [Hin0 _].
  pose proof (extends_dims _ _ _ _ Hext Hin0) as Hin0'.
  apply (verify_ConcatInst _ _ _ _ _ _ Hin0') in Hv
    as (_ & shape & Hshape & Hdest).
  rewrite (stackShape_no_wrap _ _ _ _ Hk Hsize) in Hshape.
  injection Hshape as <-.
  exists dest, (alter (λ y, y * Z.of_nat (length (in0 :: rest))) k S).
  split; [done|]. split; [done|]. by eapply elementCount_alter.
Qed.

Lemma createConcatOp_element_count_witness :
  ∃ dest out,
    getOperand (mkInstruction (ConcatInst 3) [1; 0; 0; 0]%nat) 0 = Some dest
    ∧ dims
        (mkModule
           [mkType FloatTy [2; 4; 4; 6]; mkType FloatTy [2; 4; 4; 18]]
           [mkStaticVariable 0 "input" kExtern kActivation (float_lit 0);
            mkStaticVariable 1 EmptyString kExtern kActivation (float_lit 0)]
           [mkInstruction (ConcatInst 3) [1; 0; 0; 0]%nat]) dest
      = Some out
    ∧ elementCount out
      = Z.of_nat (length [0; 0; 0]%nat) * elementCount [2; 4; 4; 6].
Proof.
  apply (createConcatOp_element_count (moduleWithInput FloatTy [2; 4; 4; 6])
           [0; 0; 0]%nat [2; 4; 4; 6] 3%nat 6).
  - repeat constructor.
  - reflexivity.
  - unfold is_size, size_max. by vm_compute.
  - reflexivity.
Defined.

(** ** Transpose: what it accepts, and what it preserves *)

(** X11. Transpose succeeds exactly when the input is declared and the
    entries of the shuffle at the places 0..rank-1 are axes of the input;
    the shuffle need not be a permutation: it may repeat an axis and drop
    another. *)
Theorem createTransposeOp_succeeds_iff M input shuffle :
  is_Some (createTransposeOp input shuffle M)
  ↔ ∃ d, dims M input = Some d
         ∧ ∀ i, (i < length d)%nat →
                ∃ j, shuffle !! i = Some j ∧ (j < length d)%nat.
Proof.
  split.
  - apply wlp_is_Some. unfold createTransposeOp, createTransposeInst.
    repeat builder_step.
    match goal with H : shuffleDims _ _ = Some _ |- _ =>
      apply shuffleDims_Some in H as [_ Hall] end.
    eexists. split; [done|]. intros i Hi.
    destruct (Hall i Hi) as (j & Hj & [y Hy] & _).
    exists j. split; [done|]. by eapply lookup_lt_Some.
  - intros (d & Hd & Hall).
    destruct (shuffleDims_is_Some d shuffle Hall) as [shape Hshape].
    eapply wp_is_Some. by eapply createTransposeOp_run.
Qed.

Lemma elementCount_permutation (l k : list Z) :
  l ≡ₚ k → elementCount l = elementCount k.
Proof.
  unfold elementCount.
  induction 1 as [|x l k _ IH|x y l|l k m _ IH1 _ IH2]; simpl;
    [done|by rewrite IH|lia|congruence].
Qed.

Lemma shuffleDims_fmap d shuffle shape :
  length shuffle = length d →
  shuffleDims d shuffle = Some shape →
  shape = (λ j, default 0 (d !! j)) <$> shuffle.
Proof.
  intros Hlen Hshape. apply shuffleDims_Some in Hshape as [Hlen' Hall].
  apply list_eq_same_length with (length d);
    [by rewrite length_fmap|done|].
  intros i x y Hi Hx Hy. rewrite list_lookup_fmap in Hy.
  destruct (Hall i Hi) as (j & Hj & _ & Hs).
  rewrite Hj in Hy. simpl in Hy. rewrite <- Hs, Hx in Hy. simpl in Hy.
  congruence.
Qed.

Lemma shuffleDims_permutation d shuffle shape :
  shuffle ≡ₚ seq 0 (length d) →
  shuffleDims d shuffle = Some shape →
  shape ≡ₚ d.
Proof.
  intros Hperm Hshape.
  rewrite (shuffleDims_fmap d shuffle shape); [|by rewrite Hperm, length_seq|done].
  rewrite Hperm.
  assert ((λ j, default 0 (d !! j)) <$> seq 0 (length d) = d) as ->; [|done].
  apply list_eq_same_length with (length d);
    [done|by rewrite length_fmap, length_seq|].
  intros i x y Hi Hx Hy. rewrite list_lookup_fmap, lookup_seq_lt in Hx by done.
  simpl in Hx. rewrite Hy in Hx. simpl in Hx. congruence.
Qed.

(** X12. Transpose by a permutation of the axes rearranges the extents: the
    shape of the output is a permutation of the shape of the input, and the
    output has the element count of the input. *)
Theorem createTransposeOp_preserves_count M input d shuffle I M' :
  dims M input = Some d →
  shuffle ≡ₚ seq 0 (length d) →
  createTransposeOp input shuffle M = Some (I, M') →
  ∃ dest shape,
    getOperand I 0 = Some dest
    ∧ dims M' dest = Some shape
    ∧ shape ≡ₚ d
    ∧ elementCount shape = elementCount d.
Proof.
  intros Hd Hperm Hrun.
  destruct (shuffleDims_is_Some d shuffle) as [shape Hshape].
  { intros i Hi. by eapply permutation_lookup. }
  destruct (createTransposeOp_run _ _ _ _ _ Hd Hshape)
    as (I0 & M0 & Hrun0 & dest & -> & Hdest & _ & _).
  rewrite Hrun in Hrun0. injection Hrun0 as -> ->.
  pose proof (shuffleDims_permutation _ _ _ Hperm Hshape) as Hp.
  exists dest, shape. split; [done|]. split; [done|]. split; [done|].
  by apply elementCount_permutation.
Qed.

Lemma createTransposeOp_preserves_count_witness :
  ∃ dest shape,
    getOperand (mkInstruction (TransposeInst [2; 0; 1]%nat) [1; 0]%nat) 0
    = Some dest
    ∧ dims
        (mkModule [mkType FloatTy [2; 3; 4]; mkType FloatTy [4; 2; 3]]
           [mkStaticVariable 0 "input" kExtern kActivation (float_lit 0);
            mkStaticVariable 1 EmptyString kExtern kActivation (float_lit 0)]
           [mkInstruction (TransposeInst [2; 0; 1]%nat) [1; 0]%nat]) dest
      = Some shape
    ∧ shape ≡ₚ [2; 3; 4]
    ∧ elementCount shape = elementCount [2; 3; 4].
Proof.
  apply (createTransposeOp_preserves_count (moduleWithInput FloatTy [2; 3; 4])
           0%nat [2; 3; 4] [2; 0; 1]%nat).
  - reflexivity.
  - simpl. rewrite <- (Permutation_cons_append [0; 1]%nat 2%nat). done.
  - reflexivity.
Defined.

Lemma shuffleDims_compose d first second mid shape :
  shuffleDims d first = Some mid →
  shuffleDims mid second = Some shape →
  shuffleDims d (composeShuffle first second) = Some shape.
Proof.
  intros Hmid Hshape.
  apply shuffleDims_Some in Hmid as [Hlen1 Hall1].
  apply shuffleDims_Some in Hshape as [Hlen2 Hall2].
  apply shuffleDims_Some. split; [congruence|]. intros i Hi.
  destruct (Hall2 i) as (j & Hj & Hmj & Hs); [congruence|].
  destruct (Hall1 j) as (p & Hp & Hdp & Hm).
  { rewrite <- Hlen1. by apply lookup_lt_is_Some. }
  exists p. unfold composeShuffle.
  rewrite list_lookup_fmap, Hj. simpl. rewrite Hp. simpl.
  split; [done|]. split; [done|]. congruence.
Qed.

(** X13. Two transpositions in a row are one: when Transpose with the
    shuffle [first] and then Transpose of its output with the shuffle
    [second] succeed, Transpose of the input with the composed shuffle
    (at [i], [first[second[i]]]) succeeds and declares an output of the same
    shape as the second transposition. *)
Theorem createTransposeOp_compose M input first second I1 M1 mid I2 M2 out
    shape :
  createTransposeOp input first M = Some (I1, M1) →
  getOperand I1 0 = Some mid →
  createTransposeOp mid second M1 = Some (I2, M2) →
  getOperand I2 0 = Some out →
  dims M2 out = Some shape →
  ∃ I M' dest,
    createTransposeOp input (composeShuffle first second) M = Some (I, M')
    ∧ getOperand I 0 = Some dest
    ∧ dims M' dest = Some shape.
Proof.
  intros Hrun1 Hmid Hrun2 Hout Hshape.
  assert (is_Some (createTransposeOp input first M)) as Hsome1 by by eexists.
  assert (∃ d, dims M input = Some d ∧ is_Some (shuffleDims d first))
    as (d & Hd & [s1 Hs1]).
  { revert Hsome1. apply wlp_is_Some.
    unfold createTransposeOp, createTransposeInst. repeat builder_step.
    eauto. }
  destruct (createTransposeOp_run _ _ _ _ _ Hd Hs1)
    as (I1' & M1' & Hrun1' & mid' & -> & Hdmid & _ & _).
  rewrite Hrun1 in Hrun1'. injection Hrun1' as -> <-.
  injection Hmid as <-.
  assert (is_Some (shuffleDims s1 second)) as [s2 Hs2].
  { assert (is_Some (createTransposeOp mid' second M1)) as Hsome2
      by by eexists.
    revert Hsome2. apply wlp_is_Some.
    unfold createTransposeOp, createTransposeInst. repeat builder_step.
    match goal with H : dims M1 mid' = Some _ |- _ =>
      rewrite Hdmid in H; injection H as <- end.
    by eexists. }
  destruct (createTransposeOp_run _ _ _ _ _ Hdmid Hs2)
    as (I2' & M2' & Hrun2' & out' & -> & Hdout & _ & _).
  rewrite Hrun2 in Hrun2'. injection Hrun2' as -> <-.
  injection Hout as <-. rewrite Hdout in Hshape. injection Hshape as <-.
  pose proof (shuffleDims_compose _ _ _ _ _ Hs1 Hs2) as Hcomp.
  destruct (createTransposeOp_run _ _ _ _ _ Hd Hcomp)
    as (I & M' & Hrun & dest & -> & Hdest & _ & _).
  by eexists _, M', dest.
Qed.

Lemma createTransposeOp_compose_witness :
  ∃ I M' dest,
    createTransposeOp 0 (composeShuffle [2; 0; 1]%nat [1; 0; 2]%nat)
      (moduleWithInput FloatTy [2; 3; 4]) = Some (I, M')
    ∧ getOperand I 0 = Some dest
    ∧ dims M' dest = Some [2; 4; 3].
Proof.
  eapply (createTransposeOp_compose (moduleWithInput FloatTy [2; 3; 4]) 0%nat
            [2; 0; 1]%nat [1; 0; 2]%nat); reflexivity.
Defined.

(** ** Descriptions are unambiguous *)

Lemma string_app_nil (t : string) : EmptyString +:+ t = t.
Proof. reflexivity. Qed.

Lemma string_app_cons ch (s t : string) :
  String ch s +:+ t = String ch (s +:+ t).
Proof. reflexivity. Qed.

Lemma string_app_assoc (s1 s2 s3 : string) :
  (s1 +:+ s2) +:+ s3 = s1 +:+ s2 +:+ s3.
Proof.
  induction s1 as [|ch s1 IH]; [done|].
  rewrite !string_app_cons. by f_equal.
Qed.

Lemma pretty_N_char_digit x : digit (pretty_N_char x) = true.
Proof. unfold pretty_N_char. by repeat case_match. Qed.

Lemma pretty_N_go_digits x s :
  digits s = true → digits (pretty_N_go x s) = true.
Proof.
  revert s. induction (N.lt_wf_0 x) as [x _ IH]; intros s Hs.
  destruct (decide (x = 0%N)) as [->|Hx]; [done|].
  rewrite pretty_N_go_step by lia. apply IH.
  - apply N.div_lt; lia.
  - simpl. by rewrite pretty_N_char_digit.
Qed.

(** The numeral of a [size_t] is made of digits. *)
Lemma to_string_digits v : 0 ≤ v → digits (to_string v) = true.
Proof.
  intros Hv. destruct v as [|p|p]; [done| |lia].
  unfold to_string, pretty, pretty_Z, pretty, pretty_positive, pretty,
    pretty_N.
  case_decide; [done|]. by apply pretty_N_go_digits.
Qed.

(** A string of digits ends where the first other character stands. *)
Lemma digits_app_inj s1 s2 t1 t2 :
  digits s1 = true → digits s2 = true →
  starts_nondigit t1 → starts_nondigit t2 →
  s1 +:+ t1 = s2 +:+ t2 → s1 = s2 ∧ t1 = t2.
Proof.
  revert s2. induction s1 as [|ch s1 IH]; intros [|ch' s2] H1 H2 Ht1 Ht2 Heq;
    rewrite ?string_app_cons, ?string_app_nil in Heq; simpl in *.
  - done.
  - destruct t1 as [|c1 t1]; [done|]. injection Heq as -> _.
    apply andb_prop in H2 as [H2 _]. congruence.
  - destruct t2 as [|c2 t2]; [done|]. injection Heq as <- _.
    apply andb_prop in H1 as [H1 _]. congruence.
  - injection Heq as -> Heq.
    apply andb_prop in H1 as [_ H1]. apply andb_prop in H2 as [_ H2].
    destruct (IH s2 H1 H2 Ht1 Ht2 Heq) as [-> ->]. done.
Qed.

Lemma pretty_N_go_nonempty x s :
  s ≠ EmptyString → pretty_N_go x s ≠ EmptyString.
Proof.
  revert s. induction (N.lt_wf_0 x) as [x _ IH]; intros s Hs.
  destruct (decide (x = 0%N)) as [->|Hx]; [done|].
  rewrite pretty_N_go_step by lia. apply IH; [|done].
  apply N.div_lt; lia.
Qed.

(** The numeral of a [size_t] starts with a digit. *)
Lemma to_string_starts_digit v :
  0 ≤ v → ∃ ch s, to_string v = String ch s ∧ digit ch = true.
Proof.
  intros Hv. pose proof (to_string_digits v Hv) as Hdig.
  destruct (to_string v) as [|ch s] eqn:E.
  - exfalso. destruct v as [|p|p]; [done| |lia].
    unfold to_string, pretty, pretty_Z, pretty, pretty_positive, pretty,
      pretty_N in E.
    case_decide; [done|].
    rewrite pretty_N_go_step in E by lia.
    revert E. by apply pretty_N_go_nonempty.
  - exists ch, s. split; [done|]. simpl in Hdig.
    by apply andb_prop in Hdig as [? _].
Qed.

Lemma to_string_app_inj v v' t1 t2 :
  0 ≤ v → 0 ≤ v' → starts_nondigit t1 → starts_nondigit t2 →
  to_string v +:+ t1 = to_string v' +:+ t2 → v = v' ∧ t1 = t2.
Proof.
  intros Hv Hv' Ht1 Ht2 Heq.
  destruct (digits_app_inj _ _ _ _ (to_string_digits v Hv)
              (to_string_digits v' Hv') Ht1 Ht2 Heq) as [Hs ->].
  split; [|done]. by apply (inj pretty).
Qed.

Lemma listToString_impl_inj a l b m :
  0 ≤ a → 0 ≤ b → Forall (λ v, 0 ≤ v) l → Forall (λ v, 0 ≤ v) m →
  listToString_impl a l +:+ "]" = listToString_impl b m +:+ "]" →
  a = b ∧ l = m.
Proof.
  revert a b m. induction l as [|x l IH]; intros a b [|y m] Ha Hb Hl Hm Heq;
    simpl in Heq; rewrite ?string_app_assoc in Heq.
  - apply to_string_app_inj in Heq as [-> _]; done.
  - apply to_string_app_inj in Heq as [_ [=]]; done.
  - apply to_string_app_inj in Heq as [_ [=]]; done.
  - apply Forall_cons in Hl as [Hx Hl]. apply Forall_cons in Hm as [Hy Hm].
    apply to_string_app_inj in Heq as [-> Heq]; [|done..].
    rewrite !string_app_cons, !string_app_nil in Heq. injection Heq as Heq.
    destruct (IH x y m Hx Hy Hl Hm Heq) as [-> ->]. done.
Qed.

Lemma listToString_inj a l b m :
  0 ≤ a → 0 ≤ b → Forall (λ v, 0 ≤ v) l → Forall (λ v, 0 ≤ v) m →
  listToString a l = listToString b m → a = b ∧ l = m.
Proof.
  intros Ha Hb Hl Hm Heq. unfold listToString in Heq.
  rewrite !string_app_cons, !string_app_nil in Heq. injection Heq as Heq.
  by apply listToString_impl_inj.
Qed.

Lemma arrayRefToString_loop_rest i list sb :
  (0 < i)%nat →
  arrayRefToString_loop i list sb = sb +:+ arrayRefToString_rest list.
Proof.
  revert i sb. induction list as [|x list IH]; intros i sb Hi; simpl.
  - induction sb as [|ch sb IHsb]; [done|].
    rewrite string_app_cons. by f_equal.
  - destruct i as [|i]; [lia|]. rewrite IH by lia.
    by rewrite !string_app_assoc.
Qed.

(** The loop of [arrayRefToString] in closed form. *)
Lemma arrayRefToString_eq list :
  arrayRefToString list
  = "[" +:+ match list with
            | [] => EmptyString
            | x :: list => to_string x +:+ arrayRefToString_rest list
            end +:+ "]".
Proof.
  unfold arrayRefToString. destruct list as [|x list]; [done|]. simpl.
  rewrite arrayRefToString_loop_rest by lia.
  by rewrite !string_app_assoc.
Qed.

Lemma arrayRefToString_rest_inj l m :
  Forall (λ v, 0 ≤ v) l → Forall (λ v, 0 ≤ v) m →
  arrayRefToString_rest l +:+ "]" = arrayRefToString_rest m +:+ "]" →
  l = m.
Proof.
  revert m. induction l as [|x l IH]; intros [|y m] Hl Hm Heq; simpl in Heq;
    rewrite ?string_app_assoc, ?string_app_cons, ?string_app_nil in Heq;
    try done.
  apply Forall_cons in Hl as [Hx Hl]. apply Forall_cons in Hm as [Hy Hm].
  injection Heq as Heq.
  apply to_string_app_inj in Heq as [-> Heq]; try done.
  - f_equal. by apply IH.
  - destruct l; done.
  - destruct m; done.
Qed.

Lemma arrayRefToString_inj l m :
  Forall (λ v, 0 ≤ v) l → Forall (λ v, 0 ≤ v) m →
  arrayRefToString l = arrayRefToString m → l = m.
Proof.
  intros Hl Hm. rewrite !arrayRefToString_eq.
  rewrite !string_app_cons, !string_app_nil. intros [= Heq].
  destruct l as [|x l], m as [|y m];
    rewrite ?string_app_assoc, ?string_app_nil in Heq.
  - done.
  - assert (0 ≤ y) as Hy by by apply Forall_cons in Hm as [? _].
    destruct (to_string_starts_digit y Hy) as (ch & s & Hs & Hch).
    rewrite Hs, string_app_cons in Heq. injection Heq as <- _. done.
  - assert (0 ≤ x) as Hx by by apply Forall_cons in Hl as [? _].
    destruct (to_string_starts_digit x Hx) as (ch & s & Hs & Hch).
    rewrite Hs, string_app_cons in Heq. injection Heq as -> _. done.
  - apply Forall_cons in Hl as [Hx Hl]. apply Forall_cons in Hm as [Hy Hm].
    apply to_string_app_inj in Heq as [-> Heq]; try done.
    + f_equal. by apply arrayRefToString_rest_inj.
    + destruct l; done.
    + destruct m; done.
Qed.

(** X14. The descriptions that [listToString] renders are unambiguous: two
    Convolution instructions have the same description only when they have
    the same kernel, stride, pad and depth; two FullyConnected instructions
    only with the same depth; a Pooling instruction always has a
    description, and two have the same only with the same kind, kernel,
    stride and pad. *)
Theorem listToString_descriptions_unambiguous
    kernel stride pad depth kernel' stride' pad' depth' kind kind' :
  Forall (λ v, 0 ≤ v)
    [kernel; stride; pad; depth; kernel'; stride'; pad'; depth'] →
  (ConvolutionInst_getExtraDesc kernel stride pad depth
   = ConvolutionInst_getExtraDesc kernel' stride' pad' depth' →
   kernel = kernel' ∧ stride = stride' ∧ pad = pad' ∧ depth = depth')
  ∧ (FullyConnectedInst_getExtraDesc depth
     = FullyConnectedInst_getExtraDesc depth' → depth = depth')
  ∧ is_Some (PoolInst_getExtraDesc kind kernel stride pad)
  ∧ (PoolInst_getExtraDesc kind kernel stride pad
     = PoolInst_getExtraDesc kind' kernel' stride' pad' →
     kind = kind' ∧ kernel = kernel' ∧ stride = stride' ∧ pad = pad').
Proof.
  intros Hall.
  repeat match goal with
  | H : Forall _ (_ :: _) |- _ => apply Forall_cons in H as [? H]
  end.
  split; [|split; [|split]].
  - unfold ConvolutionInst_getExtraDesc. intros Heq.
    apply listToString_inj in Heq as [-> [= -> -> ->]];
      repeat constructor; done.
  - unfold FullyConnectedInst_getExtraDesc. intros Heq.
    by apply listToString_inj in Heq as [-> _].
  - by destruct kind.
  - unfold PoolInst_getExtraDesc.
    destruct kind, kind'; simpl; intros Heq; apply (inj Some) in Heq;
      try (rewrite !string_app_cons in Heq; discriminate Heq);
      do 2 apply (inj (String.append _)) in Heq;
      apply listToString_inj in Heq as [-> [= -> ->]];
      repeat constructor; done.
Qed.

Lemma listToString_descriptions_unambiguous_witness :
  (ConvolutionInst_getExtraDesc 5 1 2 16 = ConvolutionInst_getExtraDesc 5 1 2 16
   → 5 = 5 ∧ 1 = 1 ∧ 2 = 2 ∧ 16 = 16)
  ∧ (FullyConnectedInst_getExtraDesc 16 = FullyConnectedInst_getExtraDesc 16
     → 16 = 16)
  ∧ is_Some (PoolInst_getExtraDesc PoolInst.kMax 5 1 2)
  ∧ (PoolInst_getExtraDesc PoolInst.kMax 5 1 2
     = PoolInst_getExtraDesc PoolInst.kAvg 5 1 2 →
     PoolInst.kMax = PoolInst.kAvg ∧ 5 = 5 ∧ 1 = 1 ∧ 2 = 2).
Proof.
  apply (listToString_descriptions_unambiguous 5 1 2 16 5 1 2 16
           PoolInst.kMax PoolInst.kAvg).
  repeat constructor; done.
Defined.

(** X15. The descriptions that [arrayRefToString] renders are unambiguous:
    two Transpose instructions have the same description only when they have
    the same shuffle, two Reshape instructions only when they have the same
    shape, and the length of the list can be read off the description; the
    empty list renders as the two brackets. *)
Theorem arrayRefToString_descriptions_unambiguous shuffle shuffle' dims_ dims' :
  Forall (λ v, 0 ≤ v) dims_ → Forall (λ v, 0 ≤ v) dims' →
  (TransposeInst_getExtraDesc shuffle = TransposeInst_getExtraDesc shuffle' →
   shuffle = shuffle')
  ∧ (ReshapeInst_getExtraDesc dims_ = ReshapeInst_getExtraDesc dims' →
     dims_ = dims')
  ∧ ReshapeInst_getExtraDesc [] = "[]".
Proof.
  intros Hd Hd'. split; [|split; [|done]].
  - unfold TransposeInst_getExtraDesc. intros Heq.
    apply arrayRefToString_inj in Heq.
    + revert Heq. apply (inj (fmap Z.of_nat)).
    + apply Forall_fmap, Forall_forall. intros j _. simpl. lia.
    + apply Forall_fmap, Forall_forall. intros j _. simpl. lia.
  - unfold ReshapeInst_getExtraDesc. by apply arrayRefToString_inj.
Qed.

Lemma arrayRefToString_descriptions_unambiguous_witness :
  (TransposeInst_getExtraDesc [2; 0; 1]%nat
   = TransposeInst_getExtraDesc [2; 0; 1]%nat →
   [2; 0; 1]%nat = [2; 0; 1]%nat)
  ∧ (ReshapeInst_getExtraDesc [2; 30] = ReshapeInst_getExtraDesc [23; 0] →
     [2; 30] = [23; 0])
  ∧ ReshapeInst_getExtraDesc [] = "[]".
Proof.
  apply (arrayRefToString_descriptions_unambiguous [2; 0; 1]%nat
           [2; 0; 1]%nat [2; 30] [23; 0]); repeat constructor; done.
Defined.

(** ** The element kind of the output, and the declaration of a buffer *)

(** X17. The element kind of the output of a high-level operator: Float for
    Convolution and Pooling, whatever the input; for Concat the element kind
    of the first input, the other inputs are not asked for theirs; for every
    other operator the element kind of its (first) input. *)
Theorem operator_output_element_kind M op I M' :
  createOp op M = Some (I, M') →
  ∃ dest, getOperand I 0 = Some dest
        ∧ getElementType M' dest = outputElemKind M op.
Proof.
  revert I M'.
  change (wlp (createOp op) M (λ I M',
    ∃ dest, getOperand I 0 = Some dest
          ∧ getElementType M' dest = outputElemKind M op)).
  destruct op as [| ? kind ? ? ? | | | | | | | | | | |]; simpl; unfold_op;
    try destruct kind; repeat builder_step;
    (eexists; split; [reflexivity|]); rewrite getElementType_instrs;
    repeat match goal with
    | H : _ ≫= _ = Some _ |- _ => apply bind_Some in H as (? & ? & ?)
    end.
  (* The output is declared with an element kind and a shape. *)
  all: try (match goal with
    | H : declares _ ?Mb ?A _ _ _ _ _ |- getElementType ?Mb ?A = _ =>
        rewrite (typeOf_getElementType _ _ _
                   (declares_typeOf _ _ _ _ _ _ _ _ H))
    end; simpl;
    repeat match goal with
    | H : ?x = Some _ |- context [?x] => rewrite H
    end; simpl;
    first [ done
          | match goal with H : typeOf _ ?i = Some ?T |- _ =>
              by rewrite (typeOf_getElementType _ _ _ H) end ]).
  (* The output is declared with the type of the input. *)
  all: repeat match goal with
    | H : declaresT _ _ _ _ _ _ _ |- _ =>
        pose proof (declaresT_getType _ _ _ _ _ _ _ H);
        pose proof (declaresT_extends _ _ _ _ _ _ _ H);
        apply declaresT_frame in H as (_ & _ & _ & ?)
    end; declared_facts;
    unfold getElementType, typeOf in *;
    repeat match goal with
    | H : getType ?Ma ?v = Some _ |- context [getType ?Ma ?v] => rewrite H
    | H : getType ?Ma ?v = Some _, H' : context [getType ?Ma ?v] |- _ =>
        rewrite H in H'
    end; simpl in *;
    repeat match goal with
    | H : types_ _ = types_ _ |- _ => rewrite H in *
    end;
    repeat match goal with
    | H : ?x = Some _ |- context [?x] => rewrite H
    end; done.
Qed.

Lemma operator_output_element_kind_witness :
  ∃ I M',
    createOp (PoolOp 1 PoolInst.kAvg 1 1 0)
      (mkModule [mkType IndexTy [1; 8; 8; 8; 2]; mkType IndexTy [1; 8; 8; 8]]
         [mkStaticVariable 0 "srcXY" kExtern kActivation (float_lit 0);
          mkStaticVariable 1 "indices" kExtern kActivation (float_lit 0)] [])
    = Some (I, M')
    ∧ ∃ dest, getOperand I 0 = Some dest
            ∧ getElementType M' dest = Some FloatTy.
Proof.
  eexists _, _. split; [reflexivity|].
  apply (operator_output_element_kind
           (mkModule
              [mkType IndexTy [1; 8; 8; 8; 2]; mkType IndexTy [1; 8; 8; 8]]
              [mkStaticVariable 0 "srcXY" kExtern kActivation (float_lit 0);
               mkStaticVariable 1 "indices" kExtern kActivation (float_lit 0)]
              [])
           (PoolOp 1 PoolInst.kAvg 1 1 0)).
  reflexivity.
Defined.

(** X18. [createStaticVariable] on an element kind and a shape never aborts:
    it declares one new buffer of this element kind and shape with the given
    name, policy, class and value, under a handle that the module did not
    have; the older buffers keep their names and attributes, the
    instructions are untouched, and the registry grows by at most one
    type. *)
Theorem createStaticVariable_declares_buffer M elemTy dims_ name initKind
    shareKind val :
  ∃ A M',
    createStaticVariable elemTy dims_ name initKind shareKind val M
    = Some (A, M')
    ∧ buffer M' A elemTy dims_ name initKind shareKind val
    ∧ vars_ M !! A = None
    ∧ (∀ v sv, vars_ M !! v = Some sv → vars_ M' !! v = Some sv)
    ∧ length (vars_ M') = S (length (vars_ M))
    ∧ instrs_ M' = instrs_ M
    ∧ (types_ M' = types_ M
       ∨ types_ M' = types_ M ++ [mkType elemTy dims_]).
Proof.
  destruct (createStaticVariable_run M elemTy dims_ name initKind shareKind val)
    as (M' & Hrun & Hdecl).
  exists (length (vars_ M)), M'. split; [done|].
  split; [by apply (declares_buffer M)|].
  split; [by apply lookup_ge_None|].
  pose proof (declares_extends _ _ _ _ _ _ _ _ Hdecl) as [_ Hvars].
  split; [intros; by eapply prefix_lookup_Some|].
  destruct (declares_frame _ _ _ _ _ _ _ _ Hdecl) as (_ & Hlen & Hinstrs).
  split; [done|]. split; [done|].
  revert Hrun. unfold createStaticVariable, mbind, Builder_bind, uniqueType.
  destruct (list_find _ (types_ M)) as [[i T]|];
    unfold pushVar, setName, mret, Builder_ret; simpl;
    rewrite lookup_app_r, Nat.sub_diag by done; simpl;
    intros [= <-]; simpl; auto.
Qed.
